(** * SettingsDialog: API-key validation and the load / save lifecycle

    A shallow embedding of [src/components/Settings/SettingsDialog.tsx]:
    the key validator [validateApiKey] (a regular-expression test on the
    trimmed key), the save handler [handleSave], the load effect that runs
    when the dialog opens, and the event loop that interleaves them. *)

From Stdlib Require Import String Ascii List NArith Arith Bool Lia.
Import ListNotations.

Set Implicit Arguments.

(** ** JavaScript strings

    A JavaScript string is a sequence of UTF-16 code units.  The regular
    expressions of the dialog carry no [u] flag, so they too work on code
    units. *)

Module JS.

Definition code_unit := N.
Definition jsstring := list code_unit.

(** An ASCII literal of the source as a JavaScript string. *)
Fixpoint lit (s : string) : jsstring :=
  match s with
  | EmptyString => []
  | String a s' => N_of_ascii a :: lit s'
  end.

(** ToBoolean on a string: only the empty string is falsy. *)
Definition truthy (s : jsstring) : bool :=
  match s with
  | [] => false
  | _ :: _ => true
  end.

(** [a || b] on strings. *)
Definition or_else (a b : jsstring) : jsstring :=
  if truthy a then a else b.

(** WhiteSpace and LineTerminator code points of ECMAScript, the ones
    [String.prototype.trim] strips: TAB, LF, VT, FF, CR, SP, NBSP,
    U+1680, U+2000..U+200A, U+2028, U+2029, U+202F, U+205F, U+3000 and
    the byte-order mark U+FEFF. *)
Definition is_white_space (c : code_unit) : bool :=
  ((9 <=? c) && (c <=? 13) || (c =? 32) || (c =? 160) || (c =? 5760)
   || (8192 <=? c) && (c <=? 8202) || (c =? 8232) || (c =? 8233)
   || (c =? 8239) || (c =? 8287) || (c =? 12288) || (c =? 65279))%N.

Fixpoint trimStart (s : jsstring) : jsstring :=
  match s with
  | [] => []
  | c :: s' => if is_white_space c then trimStart s' else s
  end.

Definition trimEnd (s : jsstring) : jsstring := rev (trimStart (rev s)).

(** [String.prototype.trim]. *)
Definition trim (s : jsstring) : jsstring := trimEnd (trimStart s).

End JS.

Import JS.

(** ** Regular expressions

    The fragment of ECMAScript patterns the dialog uses: a sequence of
    terms, each an assertion ([^], [$]), a literal character, a character
    class, or a character class under the greedy quantifier [{min,}].
    Matching follows the continuation-passing matchers of the language
    specification: a matcher takes the current position and a continuation
    for the rest of the pattern. *)

Module RegExp.

(** A class is a list of inclusive ranges; [[-_]] is two one-point
    ranges. *)
Definition class := list (code_unit * code_unit).

Inductive term :=
| AssertBegin                              (* ^ *)
| AssertEnd                                (* $ *)
| Char (c : code_unit)
| Class (cls : class)
| ClassAtLeast (cls : class) (min : nat).  (* [...]{min,} *)

Definition pattern := list term.

Definition in_range (c : code_unit) (r : code_unit * code_unit) : bool :=
  ((fst r <=? c) && (c <=? snd r))%N.

Definition in_class (cls : class) (c : code_unit) : bool :=
  existsb (in_range c) cls.

(** The match state: the index reached and the input that remains. *)
Definition continuation := nat -> jsstring -> bool.

(** RepeatMatcher for a class with no upper bound, greedy: while [min]
    is positive the class must match; afterwards one more character is
    tried first and the continuation is the fallback. *)
Fixpoint repeat_matcher (cls : class) (min : nat) (k : continuation)
         (pos : nat) (rest : jsstring) {struct rest} : bool :=
  match rest with
  | c :: rest' =>
      if in_class cls c then
        repeat_matcher cls (Nat.pred min) k (S pos) rest'
        || match min with O => k pos rest | S _ => false end
      else
        match min with O => k pos rest | S _ => false end
  | [] => match min with O => k pos rest | S _ => false end
  end.

Definition term_matcher (t : term) (k : continuation) : continuation :=
  fun pos rest =>
    match t with
    | AssertBegin => if Nat.eqb pos 0 then k pos rest else false
    | AssertEnd => match rest with [] => k pos rest | _ :: _ => false end
    | Char c =>
        match rest with
        | c' :: rest' => if (c =? c')%N then k (S pos) rest' else false
        | [] => false
        end
    | Class cls =>
        match rest with
        | c' :: rest' => if in_class cls c' then k (S pos) rest' else false
        | [] => false
        end
    | ClassAtLeast cls min => repeat_matcher cls min k pos rest
    end.

Fixpoint matcher (p : pattern) : continuation :=
  match p with
  | [] => fun _ _ => true
  | t :: p' => term_matcher t (matcher p')
  end.

(** RegExpBuiltinExec without the [g] and [y] flags: the match is tried
    at every index from 0 up to and including the length. *)
Fixpoint exec_from (p : pattern) (pos : nat) (rest : jsstring) : bool :=
  matcher p pos rest
  || match rest with
     | [] => false
     | _ :: rest' => exec_from p (S pos) rest'
     end.

(** [RegExp.prototype.test]. *)
Definition test (p : pattern) (s : jsstring) : bool := exec_from p 0 s.

(** What it means for a pattern to match at a position, stated without
    reference to the matcher: the reading of the pattern as text. *)
Inductive MatchesAt : pattern -> nat -> jsstring -> Prop :=
| M_done pos rest : MatchesAt [] pos rest
| M_begin p rest :
    MatchesAt p 0 rest -> MatchesAt (AssertBegin :: p) 0 rest
| M_end p pos :
    MatchesAt p pos [] -> MatchesAt (AssertEnd :: p) pos []
| M_char c p pos rest :
    MatchesAt p (S pos) rest -> MatchesAt (Char c :: p) pos (c :: rest)
| M_class cls c p pos rest :
    in_class cls c = true ->
    MatchesAt p (S pos) rest -> MatchesAt (Class cls :: p) pos (c :: rest)
| M_repeat cls min body p pos rest :
    min <= length body ->
    forallb (in_class cls) body = true ->
    MatchesAt p (pos + length body) rest ->
    MatchesAt (ClassAtLeast cls min :: p) pos (body ++ rest).

(** The string matches the pattern: some position of it does. *)
Definition Matches (p : pattern) (s : jsstring) : Prop :=
  exists pre rest, s = pre ++ rest /\ MatchesAt p (length pre) rest.

End RegExp.

Import RegExp.

(** ** The key validator *)

Inductive Provider := openai | claude.

(** [[a-zA-Z0-9]] *)
Definition alnum : class := [(97, 122); (65, 90); (48, 57)]%N.

(** [[-_]] *)
Definition dash_or_underscore : class := [(45, 45); (95, 95)]%N.

(** [/^sk-[a-zA-Z0-9]{32,}$/] *)
Definition openai_pattern : pattern :=
  [AssertBegin; Char 115; Char 107; Char 45; ClassAtLeast alnum 32;
   AssertEnd]%N.

(** [/^sk[-_]ant[-_][a-zA-Z0-9]{32,}$/] *)
Definition claude_pattern : pattern :=
  [AssertBegin; Char 115; Char 107; Class dash_or_underscore;
   Char 97; Char 110; Char 116; Class dash_or_underscore;
   ClassAtLeast alnum 32; AssertEnd]%N.

Definition validateApiKey (key : jsstring) (provider : Provider) : bool :=
  match provider with
  | openai => test openai_pattern (trim key)
  | claude => test claude_pattern (trim key)
  end.

(** The patterns as the specification writes them:
    [^sk-[A-Za-z0-9]{32,}$] and [^sk[-_]ant[-_][A-Za-z0-9]{32,}$]. *)
Definition spec_alnum : class := [(65, 90); (97, 122); (48, 57)]%N.

Definition spec_pattern (provider : Provider) : pattern :=
  match provider with
  | openai =>
      [AssertBegin; Char 115; Char 107; Char 45; ClassAtLeast spec_alnum 32;
       AssertEnd]%N
  | claude =>
      [AssertBegin; Char 115; Char 107; Class dash_or_underscore;
       Char 97; Char 110; Char 116; Class dash_or_underscore;
       ClassAtLeast spec_alnum 32; AssertEnd]%N
  end.

(** The keys the patterns describe, spelled out: the prefix, then at least
    32 letters or digits, and nothing else. *)
Definition KeyShape (provider : Provider) (s : jsstring) : Prop :=
  match provider with
  | openai =>
      exists body,
        s = lit "sk-" ++ body /\
        32 <= length body /\ forallb (in_class alnum) body = true
  | claude =>
      exists sep1 sep2 body,
        s = lit "sk" ++ [sep1] ++ lit "ant" ++ [sep2] ++ body /\
        in_class dash_or_underscore sep1 = true /\
        in_class dash_or_underscore sep2 = true /\
        32 <= length body /\ forallb (in_class alnum) body = true
  end.

(** ** The component

    [ProviderConfig] is the object handed to [updateConfig]; [StoredConfig]
    is what [getConfig] resolves to, where any field may be missing. *)

Module Config.
Record ProviderConfig := {
  provider : Provider;
  apiKey : jsstring;
  claudeApiKey : jsstring;
  extractionModel : jsstring;
  solutionModel : jsstring;
  debuggingModel : jsstring
}.

(** The key the selected provider requires. *)
Definition requiredKey (c : ProviderConfig) : jsstring :=
  match provider c with
  | openai => apiKey c
  | claude => claudeApiKey c
  end.
End Config.

Module Stored.
Record StoredConfig := {
  provider : option Provider;
  apiKey : option jsstring;
  claudeApiKey : option jsstring;
  extractionModel : option jsstring;
  solutionModel : option jsstring;
  debuggingModel : option jsstring
}.
End Stored.

(** [field || fallback] for a string field that may be undefined. *)
Definition string_or (field : option jsstring) (fallback : jsstring)
  : jsstring :=
  match field with
  | Some s => or_else s fallback
  | None => fallback
  end.

(** [config.provider || "openai"] *)
Definition provider_or (field : option Provider) (fallback : Provider)
  : Provider :=
  match field with
  | Some p => p
  | None => fallback
  end.

Definition provider_eqb (a b : Provider) : bool :=
  match a, b with
  | openai, openai | claude, claude => true
  | _, _ => false
  end.

(** The [useState] cells of [SettingsDialog]. *)
Record Dialog := {
  open : bool;
  provider : Provider;
  apiKey : jsstring;
  claudeApiKey : jsstring;
  extractionModel : jsstring;
  solutionModel : jsstring;
  debuggingModel : jsstring;
  isLoading : bool;
  validationError : string
}.

(** The props: [externalOpen] may be undefined, [onOpenChange] may be
    absent. *)
Record Props := {
  externalOpen : option bool;
  onOpenChange : bool
}.

Definition setOpen (v : bool) (d : Dialog) : Dialog :=
  {| open := v; provider := provider d; apiKey := apiKey d;
     claudeApiKey := claudeApiKey d; extractionModel := extractionModel d;
     solutionModel := solutionModel d; debuggingModel := debuggingModel d;
     isLoading := isLoading d; validationError := validationError d |}.

Definition setProvider (v : Provider) (d : Dialog) : Dialog :=
  {| open := open d; provider := v; apiKey := apiKey d;
     claudeApiKey := claudeApiKey d; extractionModel := extractionModel d;
     solutionModel := solutionModel d; debuggingModel := debuggingModel d;
     isLoading := isLoading d; validationError := validationError d |}.

Definition setApiKey (v : jsstring) (d : Dialog) : Dialog :=
  {| open := open d; provider := provider d; apiKey := v;
     claudeApiKey := claudeApiKey d; extractionModel := extractionModel d;
     solutionModel := solutionModel d; debuggingModel := debuggingModel d;
     isLoading := isLoading d; validationError := validationError d |}.

Definition setClaudeApiKey (v : jsstring) (d : Dialog) : Dialog :=
  {| open := open d; provider := provider d; apiKey := apiKey d;
     claudeApiKey := v; extractionModel := extractionModel d;
     solutionModel := solutionModel d; debuggingModel := debuggingModel d;
     isLoading := isLoading d; validationError := validationError d |}.

Definition setExtractionModel (v : jsstring) (d : Dialog) : Dialog :=
  {| open := open d; provider := provider d; apiKey := apiKey d;
     claudeApiKey := claudeApiKey d; extractionModel := v;
     solutionModel := solutionModel d; debuggingModel := debuggingModel d;
     isLoading := isLoading d; validationError := validationError d |}.

Definition setSolutionModel (v : jsstring) (d : Dialog) : Dialog :=
  {| open := open d; provider := provider d; apiKey := apiKey d;
     claudeApiKey := claudeApiKey d; extractionModel := extractionModel d;
     solutionModel := v; debuggingModel := debuggingModel d;
     isLoading := isLoading d; validationError := validationError d |}.

Definition setDebuggingModel (v : jsstring) (d : Dialog) : Dialog :=
  {| open := open d; provider := provider d; apiKey := apiKey d;
     claudeApiKey := claudeApiKey d; extractionModel := extractionModel d;
     solutionModel := solutionModel d; debuggingModel := v;
     isLoading := isLoading d; validationError := validationError d |}.

Definition setIsLoading (v : bool) (d : Dialog) : Dialog :=
  {| open := open d; provider := provider d; apiKey := apiKey d;
     claudeApiKey := claudeApiKey d; extractionModel := extractionModel d;
     solutionModel := solutionModel d; debuggingModel := debuggingModel d;
     isLoading := v; validationError := validationError d |}.

Definition setValidationError (v : string) (d : Dialog) : Dialog :=
  {| open := open d; provider := provider d; apiKey := apiKey d;
     claudeApiKey := claudeApiKey d; extractionModel := extractionModel d;
     solutionModel := solutionModel d; debuggingModel := debuggingModel d;
     isLoading := isLoading d; validationError := v |}.

(** The edit buffer: the six cells that make up a configuration, as the
    object literal of [handleSave] collects them. *)
Definition edit_buffer (d : Dialog) : Config.ProviderConfig :=
  {| Config.provider := provider d;
     Config.apiKey := apiKey d;
     Config.claudeApiKey := claudeApiKey d;
     Config.extractionModel := extractionModel d;
     Config.solutionModel := solutionModel d;
     Config.debuggingModel := debuggingModel d |}.

(** The initial values of the [useState] calls. *)
Definition default_buffer : Config.ProviderConfig :=
  {| Config.provider := openai;
     Config.apiKey := lit "";
     Config.claudeApiKey := lit "";
     Config.extractionModel := lit "gpt-4o";
     Config.solutionModel := lit "gpt-4o";
     Config.debuggingModel := lit "gpt-4o" |}.

Definition initial_dialog (p : Props) : Dialog :=
  {| open := match externalOpen p with Some b => b | None => false end;
     provider := openai;
     apiKey := lit "";
     claudeApiKey := lit "";
     extractionModel := lit "gpt-4o";
     solutionModel := lit "gpt-4o";
     debuggingModel := lit "gpt-4o";
     isLoading := false;
     validationError := "" |}.

(** ** Handlers

    What a handler does besides writing state cells is recorded as a list
    of effects, in the order the calls are made. *)

Inductive effect :=
| ShowToast (title message variant : string)
| ConsoleError (message : string)
| GetConfig
| UpdateConfig (config : Config.ProviderConfig)
| OnOpenChange (newOpen : bool)
| SetTimeoutReload (ms : nat).

(** How a promise of the bridge settles. *)
Inductive outcome (A : Type) :=
| Resolved (value : A)
| Rejected.

Arguments Resolved {A} value.
Arguments Rejected {A}.

(** A handler reads and writes the state cells and emits effects. *)
Definition Handler (A : Type) : Type := Dialog -> A * Dialog * list effect.

Definition ret {A} (a : A) : Handler A := fun d => (a, d, []).

Definition bind {A B} (m : Handler A) (f : A -> Handler B) : Handler B :=
  fun d =>
    let '(a, d1, e1) := m d in
    let '(b, d2, e2) := f a d1 in
    (b, d2, e1 ++ e2).

Definition get : Handler Dialog := fun d => (d, d, []).

Definition set (f : Dialog -> Dialog) : Handler unit :=
  fun d => (tt, f d, []).

Definition emit (e : effect) : Handler unit := fun d => (tt, d, [e]).

Declare Scope handler_scope.
Delimit Scope handler_scope with handler.
Notation "x <- m ;; k" := (bind m (fun x => k))
  (at level 61, m at next level, right associativity) : handler_scope.
Notation "m ;; k" := (bind m (fun _ => k))
  (at level 61, right associativity) : handler_scope.
Local Open Scope handler_scope.

(** [newOpen !== externalOpen] *)
Definition differs (newOpen : bool) (ext : option bool) : bool :=
  match ext with
  | Some b => negb (Bool.eqb newOpen b)
  | None => true
  end.

Definition handleOpenChange (p : Props) (newOpen : bool) : Handler unit :=
  set (setOpen newOpen) ;;
  if onOpenChange p && differs newOpen (externalOpen p)
  then emit (OnOpenChange newOpen)
  else ret tt.

(** The body of the load effect, run when [open] is true: up to the call
    of [getConfig]. *)
Definition load_start : Handler unit :=
  set (setIsLoading true) ;;
  set (setValidationError "") ;;
  emit GetConfig.

(** The [then], [catch] and [finally] callbacks of the load. *)
Definition load_then (config : Stored.StoredConfig) : Handler unit :=
  set (setApiKey (string_or (Stored.apiKey config) (lit ""))) ;;
  set (setClaudeApiKey (string_or (Stored.claudeApiKey config) (lit ""))) ;;
  set (setProvider (provider_or (Stored.provider config) openai)) ;;
  set (setExtractionModel
         (string_or (Stored.extractionModel config) (lit "gpt-4o"))) ;;
  set (setSolutionModel
         (string_or (Stored.solutionModel config) (lit "gpt-4o"))) ;;
  set (setDebuggingModel
         (string_or (Stored.debuggingModel config) (lit "gpt-4o"))).

Definition load_catch : Handler unit :=
  emit (ConsoleError "Failed to load config:") ;;
  emit (ShowToast "Error" "Failed to load settings" "error").

Definition load_finally : Handler unit := set (setIsLoading false).

Definition load_settle (o : outcome Stored.StoredConfig) : Handler unit :=
  match o with
  | Resolved config => load_then config
  | Rejected => load_catch
  end ;;
  load_finally.

(** [handleSave] up to the [await]: the validation, and when it passes the
    call of [updateConfig].  The handler works on the state cells of the
    render it was created in, read here at its start.  The result is the
    submitted configuration, or [None] when the handler returned early. *)
Definition handleSave_submit : Handler (option Config.ProviderConfig) :=
  d <- get ;;
  set (setValidationError "") ;;
  if provider_eqb (provider d) openai && truthy (apiKey d)
     && negb (validateApiKey (apiKey d) openai)
  then
    set (setValidationError
           "Invalid OpenAI API key format. Keys should start with 'sk-'") ;;
    ret None
  else if provider_eqb (provider d) claude && truthy (claudeApiKey d)
          && negb (validateApiKey (claudeApiKey d) claude)
  then
    set (setValidationError
           "Invalid Claude API key format. Keys should start with 'sk-ant-' or 'sk_ant_'") ;;
    ret None
  else if provider_eqb (provider d) openai && negb (truthy (apiKey d))
  then
    set (setValidationError "OpenAI API key is required") ;;
    ret None
  else if provider_eqb (provider d) claude && negb (truthy (claudeApiKey d))
  then
    set (setValidationError "Claude API key is required") ;;
    ret None
  else
    set (setIsLoading true) ;;
    emit (UpdateConfig (edit_buffer d)) ;;
    ret (Some (edit_buffer d)).

(** [handleSave] after the [await]: the [if (result)] branch or the
    [catch] block, then [finally].  The props are those of the render in
    which the handler was created. *)
Definition handleSave_settle (p : Props) (o : outcome bool) : Handler unit :=
  match o with
  | Resolved result =>
      if result then
        emit (ShowToast "Success" "Settings saved successfully" "success") ;;
        handleOpenChange p false ;;
        emit (SetTimeoutReload 1500)
      else ret tt
  | Rejected =>
      emit (ConsoleError "Failed to save settings:") ;;
      emit (ShowToast "Error" "Failed to save settings" "error")
  end ;;
  set (setIsLoading false).

(** The whole of [handleSave], given how [updateConfig] answers. *)
Definition handleSave (p : Props)
           (updateConfig : Config.ProviderConfig -> outcome bool)
  : Handler unit :=
  submitted <- handleSave_submit ;;
  match submitted with
  | None => ret tt
  | Some config => handleSave_settle p (updateConfig config)
  end.

(** The calls of [updateConfig] among a list of effects. *)
Fixpoint updateConfig_calls (es : list effect) : list Config.ProviderConfig :=
  match es with
  | [] => []
  | UpdateConfig c :: es' => c :: updateConfig_calls es'
  | _ :: es' => updateConfig_calls es'
  end.

(** The notifications among a list of effects. *)
Definition is_toast (e : effect) : bool :=
  match e with
  | ShowToast _ _ _ => true
  | _ => false
  end.

(** ** The lifecycle

    The mounted component together with what is outstanding at the bridge:
    the loads and saves whose promises have not settled.  An outstanding
    save remembers the props its handler closed over. *)

Record System := {
  dialog : Dialog;
  props : Props;
  pendingLoads : nat;
  pendingSaves : list Props;
  log : list effect
}.

(** The two model ids each category of [modelCategories] offers. *)
Inductive ModelChoice := gpt_4o | gpt_4o_mini.

Definition model_id (m : ModelChoice) : jsstring :=
  match m with
  | gpt_4o => lit "gpt-4o"
  | gpt_4o_mini => lit "gpt-4o-mini"
  end.

Inductive ModelCategory := ExtractionModel | SolutionModel | DebuggingModel.

Definition setValue (c : ModelCategory) : jsstring -> Dialog -> Dialog :=
  match c with
  | ExtractionModel => setExtractionModel
  | SolutionModel => setSolutionModel
  | DebuggingModel => setDebuggingModel
  end.

Inductive event :=
| PropsChange (p : Props)            (* the parent renders with new props *)
| ClickCancel
| ClickProvider (v : Provider)
| TypeApiKey (v : jsstring)
| TypeClaudeApiKey (v : jsstring)
| ClickModel (c : ModelCategory) (m : ModelChoice)
| ClickSave
| GetConfigSettles (o : outcome Stored.StoredConfig)
| UpdateConfigSettles (n : nat) (o : outcome bool).  (* n-th outstanding save *)

(** Run a handler on the component and append its effects to the log. *)
Definition perform {A} (h : Handler A) (s : System) : A * System :=
  let '(a, d, es) := h (dialog s) in
  (a, {| dialog := d; props := props s; pendingLoads := pendingLoads s;
         pendingSaves := pendingSaves s; log := log s ++ es |}).

(** The load effect depends on [open]: after a render in which [open]
    turned true it starts a load. *)
Definition after_render (was_open : bool) (s : System) : System :=
  if negb was_open && open (dialog s) then
    let s' := snd (perform load_start s) in
    {| dialog := dialog s'; props := props s';
       pendingLoads := S (pendingLoads s');
       pendingSaves := pendingSaves s'; log := log s' |}
  else s.

(** The first render and its effects. *)
Definition mount (p : Props) : System :=
  after_render false
    {| dialog := initial_dialog p; props := p; pendingLoads := 0;
       pendingSaves := []; log := [] |}.

(** The effect that follows [externalOpen]. *)
Definition sync_external (old new : Props) : Handler unit :=
  match externalOpen new with
  | Some b =>
      if differs b (externalOpen old) then set (setOpen b) else ret tt
  | None => ret tt
  end.

Fixpoint remove_nth {A} (n : nat) (l : list A) : list A :=
  match n, l with
  | _, [] => []
  | O, _ :: l' => l'
  | S n', x :: l' => x :: remove_nth n' l'
  end.

(** One event of the lifecycle; [None] when the event cannot happen in the
    state: a control that is not rendered or is disabled, a promise that
    is not outstanding. *)
Definition step (s : System) (e : event) : option System :=
  let d := dialog s in
  match e with
  | PropsChange p =>
      let s1 := snd (perform (sync_external (props s) p) s) in
      Some (after_render (open d)
              {| dialog := dialog s1; props := p;
                 pendingLoads := pendingLoads s1;
                 pendingSaves := pendingSaves s1; log := log s1 |})
  | ClickCancel =>
      if open d
      then Some (after_render (open d)
                   (snd (perform (handleOpenChange (props s) false) s)))
      else None
  | ClickProvider v =>
      if open d then Some (snd (perform (set (setProvider v)) s)) else None
  | TypeApiKey v =>
      if open d && provider_eqb (provider d) openai
      then Some (snd (perform (set (setApiKey v)) s)) else None
  | TypeClaudeApiKey v =>
      if open d && provider_eqb (provider d) claude
      then Some (snd (perform (set (setClaudeApiKey v)) s)) else None
  | ClickModel c m =>
      if open d && provider_eqb (provider d) openai
      then Some (snd (perform (set (setValue c (model_id m))) s)) else None
  | ClickSave =>
      if open d && negb (isLoading d) then
        let '(submitted, s1) := perform handleSave_submit s in
        match submitted with
        | None => Some s1
        | Some _ =>
            Some {| dialog := dialog s1; props := props s1;
                    pendingLoads := pendingLoads s1;
                    pendingSaves := pendingSaves s1 ++ [props s];
                    log := log s1 |}
        end
      else None
  | GetConfigSettles o =>
      match pendingLoads s with
      | O => None
      | S n =>
          let s1 := snd (perform (load_settle o) s) in
          Some {| dialog := dialog s1; props := props s1; pendingLoads := n;
                  pendingSaves := pendingSaves s1; log := log s1 |}
      end
  | UpdateConfigSettles n o =>
      match nth_error (pendingSaves s) n with
      | None => None
      | Some p =>
          let s1 := snd (perform (handleSave_settle p o) s) in
          Some (after_render (open d)
                  {| dialog := dialog s1; props := props s1;
                     pendingLoads := pendingLoads s1;
                     pendingSaves := remove_nth n (pendingSaves s1);
                     log := log s1 |})
      end
  end.

Fixpoint run (s : System) (es : list event) : option System :=
  match es with
  | [] => Some s
  | e :: es' =>
      match step s e with
      | Some s' => run s' es'
      | None => None
      end
  end.

(** The states the lifecycle can be in. *)
Definition Reachable (s : System) : Prop :=
  exists p es, run (mount p) es = Some s.

(** The saves in flight at the bridge. *)
Definition saves_in_flight (s : System) : nat := length (pendingSaves s).

(** A submitted configuration carries its required key, well formed. *)
Definition required_key_ok (c : Config.ProviderConfig) : Prop :=
  Config.requiredKey c <> [] /\
  validateApiKey (Config.requiredKey c) (Config.provider c) = true /\
  Matches (spec_pattern (Config.provider c)) (trim (Config.requiredKey c)).

(** The state after a run of events from the mount; the mounted state when
    some event of the run cannot happen. *)
Definition state_after (p : Props) (es : list event) : System :=
  match run (mount p) es with
  | Some s => s
  | None => mount p
  end.

(** ** Scenarios

    A parent that shows the dialog and one that hides it, a stored
    configuration with a well-formed OpenAI key, and two runs of the
    lifecycle in which the dialog is closed and opened again. *)

Definition key_a32 : jsstring := lit "sk-" ++ repeat 97%N 32.

Definition parent_open : Props :=
  {| externalOpen := Some true; onOpenChange := true |}.

Definition parent_closed : Props :=
  {| externalOpen := Some false; onOpenChange := true |}.

Definition stored_openai : Stored.StoredConfig :=
  {| Stored.provider := Some openai;
     Stored.apiKey := Some key_a32;
     Stored.claudeApiKey := None;
     Stored.extractionModel := None;
     Stored.solutionModel := None;
     Stored.debuggingModel := None |}.

Definition loaded_openai : Config.ProviderConfig :=
  {| Config.provider := openai;
     Config.apiKey := key_a32;
     Config.claudeApiKey := lit "";
     Config.extractionModel := lit "gpt-4o";
     Config.solutionModel := lit "gpt-4o";
     Config.debuggingModel := lit "gpt-4o" |}.

(** The dialog loads, is cancelled and is opened again. *)
Definition load_close_reopen : list event :=
  [GetConfigSettles (Resolved stored_openai);
   ClickCancel;
   PropsChange parent_closed;
   PropsChange parent_open].

(** The dialog loads and Save is clicked. *)
Definition load_save : list event :=
  [GetConfigSettles (Resolved stored_openai); ClickSave].

(** Save is clicked; before [updateConfig] settles the dialog is cancelled
    and opened again, the new load settles, and Save is clicked again. *)
Definition save_reopen_save : list event :=
  [GetConfigSettles (Resolved stored_openai);
   ClickSave;
   ClickCancel;
   PropsChange parent_closed;
   PropsChange parent_open;
   GetConfigSettles (Resolved stored_openai);
   ClickSave].

(** An open, idle dialog whose edit buffer holds a given configuration. *)
Definition editing (c : Config.ProviderConfig) : Dialog :=
  {| open := true;
     provider := Config.provider c;
     apiKey := Config.apiKey c;
     claudeApiKey := Config.claudeApiKey c;
     extractionModel := Config.extractionModel c;
     solutionModel := Config.solutionModel c;
     debuggingModel := Config.debuggingModel c;
     isLoading := false;
     validationError := "" |}.

Definition short_openai : Config.ProviderConfig :=
  {| Config.provider := openai;
     Config.apiKey := lit "sk-short";
     Config.claudeApiKey := lit "";
     Config.extractionModel := lit "gpt-4o";
     Config.solutionModel := lit "gpt-4o";
     Config.debuggingModel := lit "gpt-4o" |}.

Definition empty_claude : Config.ProviderConfig :=
  {| Config.provider := claude;
     Config.apiKey := lit "";
     Config.claudeApiKey := lit "";
     Config.extractionModel := lit "gpt-4o";
     Config.solutionModel := lit "gpt-4o";
     Config.debuggingModel := lit "gpt-4o" |}.

(** A Claude key with two spaces in front and a line feed behind. *)
Definition claude_core : jsstring := lit "sk-ant-" ++ repeat 48%N 32.

Definition padded_claude : Config.ProviderConfig :=
  {| Config.provider := claude;
     Config.apiKey := lit "";
     Config.claudeApiKey := lit "  " ++ claude_core ++ [10%N];
     Config.extractionModel := lit "gpt-4o";
     Config.solutionModel := lit "gpt-4o";
     Config.debuggingModel := lit "gpt-4o" |}.

(** A bridge whose [updateConfig] always rejects, and one that always
    resolves to [false]. *)
Definition always_rejects (_ : Config.ProviderConfig) : outcome bool :=
  Rejected.

Definition always_false (_ : Config.ProviderConfig) : outcome bool :=
  Resolved false.

(** ** The rest of the component

    The masked display of a key, and the configuration the bridge hands
    back when it stored what [updateConfig] was given. *)

(** [String.prototype.substring]: both indices are clamped to the length
    and swapped when out of order. *)
Definition substring (s : jsstring) (start finish : nat) : jsstring :=
  let a := Nat.min start (length s) in
  let b := Nat.min finish (length s) in
  firstn (Nat.max a b - Nat.min a b) (skipn (Nat.min a b) s).

Definition maskApiKey (key : jsstring) : jsstring :=
  if negb (truthy key) || (length key <? 10) then lit ""
  else substring key 0 4 ++ lit "..."
       ++ substring key (length key - 4) (length key).

(** A submitted configuration as a stored one: every field present. *)
Definition stored_of (c : Config.ProviderConfig) : Stored.StoredConfig :=
  {| Stored.provider := Some (Config.provider c);
     Stored.apiKey := Some (Config.apiKey c);
     Stored.claudeApiKey := Some (Config.claudeApiKey c);
     Stored.extractionModel := Some (Config.extractionModel c);
     Stored.solutionModel := Some (Config.solutionModel c);
     Stored.debuggingModel := Some (Config.debuggingModel c) |}.

(** No model field of the edit buffer is the empty string. *)
Definition models_chosen (d : Dialog) : Prop :=
  truthy (extractionModel d) = true /\
  truthy (solutionModel d) = true /\
  truthy (debuggingModel d) = true.

(** The events that write the edit buffer: the user's edits and a load
    that resolves. *)
Definition writes_buffer (e : event) : bool :=
  match e with
  | ClickProvider _ | TypeApiKey _ | TypeClaudeApiKey _ | ClickModel _ _
  | GetConfigSettles (Resolved _) => true
  | _ => false
  end.

(** The success notifications in a log. *)
Fixpoint success_toasts (es : list effect) : nat :=
  match es with
  | [] => 0
  | ShowToast "Success" _ _ :: es' => S (success_toasts es')
  | _ :: es' => success_toasts es'
  end.

(** More scenarios: a parent that passes no [onOpenChange], a bridge that
    always resolves to [true], a buffer with a model left empty. *)
Definition parent_silent : Props :=
  {| externalOpen := Some true; onOpenChange := false |}.

Definition always_true (_ : Config.ProviderConfig) : outcome bool :=
  Resolved true.


(** * Properties *)

(** ** The matcher against the reading of patterns *)

Section MatcherCorrect.

Local Close Scope handler_scope.

Lemma repeat_matcher_spec cls k :
  forall rest min pos,
    repeat_matcher cls min k pos rest = true <->
    exists body rest',
      rest = body ++ rest' /\ min <= length body /\
      forallb (in_class cls) body = true /\
      k (pos + length body) rest' = true.
Proof.
  induction rest as [|c rest IH]; intros min pos; simpl.
  - split.
    + destruct min; [|discriminate]. intros Hk.
      exists [], []. simpl. rewrite Nat.add_0_r. auto.
    + intros (body & rest' & Heq & Hmin & _ & Hk).
      symmetry in Heq. apply app_eq_nil in Heq as [-> ->].
      simpl in *. rewrite Nat.add_0_r in Hk.
      destruct min; [assumption | lia].
  - split.
    + destruct (in_class cls c) eqn:Hc.
      * intros H. apply orb_true_iff in H as [H | H].
        -- apply IH in H as (body & rest' & -> & Hmin & Hall & Hk).
           exists (c :: body), rest'. simpl. rewrite Hc, Hall.
           rewrite Nat.add_succ_r. repeat split; auto. lia.
        -- destruct min; [|discriminate].
           exists [], (c :: rest). simpl. rewrite Nat.add_0_r. auto.
      * destruct min; [|discriminate]. intros Hk.
        exists [], (c :: rest). simpl. rewrite Nat.add_0_r. auto.
    + intros (body & rest' & Heq & Hmin & Hall & Hk).
      destruct body as [|b body]; simpl in *.
      * rewrite Nat.add_0_r in Hk. subst rest'.
        destruct min; [|lia].
        destruct (in_class cls c); [rewrite Hk; apply orb_true_r | assumption].
      * injection Heq as <- ->.
        apply andb_true_iff in Hall as [Hb Hall]. rewrite Hb.
        apply orb_true_iff. left. apply IH.
        exists body, rest'. rewrite Nat.add_succ_r in Hk.
        repeat split; auto. lia.
Qed.

Lemma matcher_correct :
  forall p pos rest, matcher p pos rest = true <-> MatchesAt p pos rest.
Proof.
  induction p as [|t p IH]; intros pos rest; simpl.
  - split; [constructor | reflexivity].
  - destruct t as [| |c|cls|cls min]; simpl.
    + destruct pos; simpl.
      * rewrite IH. split; [apply M_begin | now inversion 1].
      * split; [discriminate | inversion 1].
    + destruct rest.
      * rewrite IH. split; [apply M_end | now inversion 1].
      * split; [discriminate | inversion 1].
    + destruct rest as [|c' rest].
      * split; [discriminate | inversion 1].
      * destruct (N.eqb_spec c c') as [<- | Hne].
        -- rewrite IH. split; [apply M_char | now inversion 1].
        -- split; [discriminate | inversion 1; congruence].
    + destruct rest as [|c' rest].
      * split; [discriminate | inversion 1].
      * destruct (in_class cls c') eqn:Hc.
        -- rewrite IH. split; [now apply M_class | now inversion 1].
        -- split; [discriminate | inversion 1; congruence].
    + rewrite repeat_matcher_spec. split.
      * intros (body & rest' & -> & Hmin & Hall & Hk).
        apply M_repeat; auto. now apply IH.
      * inversion 1; subst. exists body, rest0.
        repeat split; auto. now apply IH.
Qed.

Lemma exec_from_correct p :
  forall rest pos,
    exec_from p pos rest = true <->
    exists pre rest',
      rest = pre ++ rest' /\ MatchesAt p (pos + length pre) rest'.
Proof.
  induction rest as [|c rest IH]; intros pos; simpl.
  - rewrite orb_false_r, matcher_correct. split.
    + intros H. exists [], []. simpl. rewrite Nat.add_0_r. auto.
    + intros (pre & rest' & Heq & H).
      symmetry in Heq. apply app_eq_nil in Heq as [-> ->].
      simpl in H. now rewrite Nat.add_0_r in H.
  - rewrite orb_true_iff, matcher_correct, IH. split.
    + intros [H | (pre & rest' & -> & H)].
      * exists [], (c :: rest). simpl. rewrite Nat.add_0_r. auto.
      * exists (c :: pre), rest'. simpl.
        rewrite Nat.add_succ_r. auto.
    + intros (pre & rest' & Heq & H). destruct pre as [|c' pre]; simpl in *.
      * left. subst rest'. now rewrite Nat.add_0_r in H.
      * right. injection Heq as <- ->. exists pre, rest'.
        rewrite Nat.add_succ_r in H. auto.
Qed.

(** [test] decides [Matches]. *)
Lemma test_correct p s : test p s = true <-> Matches p s.
Proof.
  unfold test, Matches. rewrite exec_from_correct. reflexivity.
Qed.

End MatcherCorrect.

(** ** The two patterns, spelled out *)

Section Shapes.

Local Close Scope handler_scope.

Variable cls : class.

Ltac peel :=
  match goal with
  | H : MatchesAt (_ :: _) _ _ |- _ => inversion H; subst; clear H
  end.

Lemma openai_shape s :
  Matches [AssertBegin; Char 115; Char 107; Char 45; ClassAtLeast cls 32;
           AssertEnd]%N s <->
  exists body,
    s = lit "sk-" ++ body /\
    32 <= length body /\ forallb (in_class cls) body = true.
Proof.
  split.
  - intros (pre & rest & -> & H).
    peel. destruct pre; [|discriminate]. repeat peel.
    exists body. rewrite app_nil_r. auto.
  - intros (body & -> & Hmin & Hall).
    exists [], (lit "sk-" ++ body). split; [reflexivity|].
    simpl. apply M_begin. do 3 apply M_char.
    rewrite <- (app_nil_r body). apply M_repeat; auto.
    apply M_end, M_done.
Qed.

Lemma claude_shape s :
  Matches [AssertBegin; Char 115; Char 107; Class dash_or_underscore;
           Char 97; Char 110; Char 116; Class dash_or_underscore;
           ClassAtLeast cls 32; AssertEnd]%N s <->
  exists sep1 sep2 body,
    s = lit "sk" ++ [sep1] ++ lit "ant" ++ [sep2] ++ body /\
    in_class dash_or_underscore sep1 = true /\
    in_class dash_or_underscore sep2 = true /\
    32 <= length body /\ forallb (in_class cls) body = true.
Proof.
  split.
  - intros (pre & rest & -> & H).
    peel. destruct pre; [|discriminate]. repeat peel.
    match goal with
    | |- context [ [] ++ 115%N :: 107%N :: ?a :: _ :: _ :: _ :: ?b :: ?body ++ [] ] =>
        exists a, b, body
    end.
    rewrite app_nil_r. auto.
  - intros (sep1 & sep2 & body & -> & Hs1 & Hs2 & Hmin & Hall).
    exists [], (lit "sk" ++ [sep1] ++ lit "ant" ++ [sep2] ++ body).
    split; [reflexivity|].
    simpl. apply M_begin. do 2 apply M_char. apply M_class; auto.
    do 3 apply M_char. apply M_class; auto.
    rewrite <- (app_nil_r body). apply M_repeat; auto.
    apply M_end, M_done.
Qed.

End Shapes.

Lemma spec_alnum_same c : in_class spec_alnum c = in_class alnum c.
Proof.
  unfold in_class, spec_alnum, alnum, in_range; simpl.
  destruct ((65 <=? c) && (c <=? 90))%N, ((97 <=? c) && (c <=? 122))%N;
    reflexivity.
Qed.

Lemma forallb_spec_alnum body :
  forallb (in_class spec_alnum) body = forallb (in_class alnum) body.
Proof.
  induction body as [|c body IH]; cbn [forallb]; [reflexivity|].
  now rewrite spec_alnum_same, IH.
Qed.

(** The pattern of the source and the pattern of the specification both
    describe [KeyShape]. *)
Lemma source_pattern_shape provider s :
  test (match provider with
        | openai => openai_pattern
        | claude => claude_pattern
        end) s = true <-> KeyShape provider s.
Proof.
  rewrite test_correct. destruct provider; simpl.
  - apply openai_shape.
  - apply claude_shape.
Qed.

Lemma spec_pattern_shape provider s :
  Matches (spec_pattern provider) s <-> KeyShape provider s.
Proof.
  destruct provider; simpl.
  - rewrite openai_shape. split; intros (body & H1 & H2 & H3); exists body;
      rewrite forallb_spec_alnum in *; auto.
  - rewrite claude_shape.
    split; intros (s1 & s2 & body & H1 & H2 & H3 & H4 & H5);
      exists s1, s2, body; rewrite forallb_spec_alnum in *; auto.
Qed.

Lemma validateApiKey_shape key provider :
  validateApiKey key provider = true <-> KeyShape provider (trim key).
Proof.
  rewrite <- source_pattern_shape. destruct provider; reflexivity.
Qed.

(** ** Trimming *)

Section Trim.

Local Close Scope handler_scope.

Lemma trimStart_white ws s :
  forallb is_white_space ws = true -> trimStart (ws ++ s) = trimStart s.
Proof.
  induction ws as [|w ws IH]; cbn [forallb app trimStart]; [reflexivity|].
  intros H. apply andb_true_iff in H as [-> H]. auto.
Qed.

Lemma trimStart_keep c s :
  is_white_space c = false -> trimStart (c :: s) = c :: s.
Proof. intros H. cbn [trimStart]. now rewrite H. Qed.

Lemma forallb_rev {A} (f : A -> bool) l :
  forallb f (rev l) = forallb f l.
Proof.
  induction l as [|a l IH]; cbn [rev forallb]; [reflexivity|].
  rewrite forallb_app, IH. cbn [forallb].
  rewrite andb_true_r. apply andb_comm.
Qed.

Lemma trimEnd_white s ws :
  forallb is_white_space ws = true -> trimEnd (s ++ ws) = trimEnd s.
Proof.
  intros H. unfold trimEnd. rewrite rev_app_distr, trimStart_white.
  - reflexivity.
  - now rewrite forallb_rev.
Qed.

Lemma trimEnd_keep s c :
  is_white_space c = false -> trimEnd (s ++ [c]) = s ++ [c].
Proof.
  intros H. unfold trimEnd. rewrite rev_app_distr.
  cbn [rev app]. rewrite trimStart_keep by assumption.
  cbn [rev]. now rewrite rev_involutive.
Qed.

(** White space around a string that neither starts nor ends with white
    space is what [trim] removes. *)
Lemma trim_padded ws1 ws2 c mid c' :
  forallb is_white_space ws1 = true ->
  forallb is_white_space ws2 = true ->
  is_white_space c = false ->
  is_white_space c' = false ->
  trim (ws1 ++ (c :: mid ++ [c']) ++ ws2) = c :: mid ++ [c'].
Proof.
  intros H1 H2 Hc Hc'. unfold trim.
  rewrite trimStart_white by assumption.
  cbn [app]. rewrite trimStart_keep by assumption.
  change (c :: (mid ++ [c']) ++ ws2) with ((c :: mid ++ [c']) ++ ws2).
  rewrite trimEnd_white by assumption.
  change (c :: mid ++ [c']) with ((c :: mid) ++ [c']).
  now apply trimEnd_keep.
Qed.

Lemma alnum_not_white c :
  in_class alnum c = true -> is_white_space c = false.
Proof.
  unfold in_class, alnum, in_range, is_white_space; cbn [existsb fst snd].
  intros H.
  assert (Hb : (48 <= c <= 122)%N).
  { repeat (apply orb_true_iff in H as [H | H]);
      try discriminate;
      apply andb_true_iff in H as [H1 H2];
      apply N.leb_le in H1, H2; lia. }
  rewrite !orb_false_iff, !andb_false_iff, !N.eqb_neq, !N.leb_gt. lia.
Qed.

Lemma last_split {A} (l : list A) :
  1 <= length l -> exists l' a, l = l' ++ [a].
Proof.
  destruct l as [|x l] using rev_ind; cbn [length]; [lia|].
  intros _. eauto.
Qed.

(** A well-formed key starts with [s] and ends with a letter or digit. *)
Lemma KeyShape_ends provider s :
  KeyShape provider s ->
  exists c mid c',
    s = c :: mid ++ [c'] /\
    is_white_space c = false /\ is_white_space c' = false.
Proof.
  destruct provider; cbn [KeyShape].
  - intros (body & -> & Hlen & Hall).
    destruct (@last_split _ body) as (body' & a & ->); [lia|].
    rewrite forallb_app in Hall. apply andb_true_iff in Hall as [_ Ha].
    cbn [forallb] in Ha. rewrite andb_true_r in Ha.
    exists 115%N, ([107; 45]%N ++ body'), a.
    split; [|split]; [|reflexivity|now apply alnum_not_white].
    cbn. rewrite <- ?app_assoc. reflexivity.
  - intros (s1 & s2 & body & -> & _ & _ & Hlen & Hall).
    destruct (@last_split _ body) as (body' & a & ->); [lia|].
    rewrite forallb_app in Hall. apply andb_true_iff in Hall as [_ Ha].
    cbn [forallb] in Ha. rewrite andb_true_r in Ha.
    exists 115%N, ([107; s1; 97; 110; 116; s2]%N ++ body'), a.
    split; [|split]; [|reflexivity|now apply alnum_not_white].
    cbn. rewrite <- ?app_assoc. reflexivity.
Qed.

Lemma KeyShape_nonempty provider s : KeyShape provider s -> s <> [].
Proof.
  intros H. apply KeyShape_ends in H as (c & mid & c' & -> & _).
  discriminate.
Qed.

Lemma trim_nil : trim [] = [].
Proof. reflexivity. Qed.

(** A key the validator accepts is not the empty string. *)
Lemma valid_key_truthy key provider :
  validateApiKey key provider = true -> truthy key = true.
Proof.
  intros H. apply validateApiKey_shape in H.
  destruct key; [|reflexivity].
  rewrite trim_nil in H. now apply KeyShape_nonempty in H.
Qed.

(** Padding a well-formed key with white space keeps it valid. *)
Lemma padded_key_valid provider ws1 core ws2 :
  forallb is_white_space ws1 = true ->
  forallb is_white_space ws2 = true ->
  KeyShape provider core ->
  validateApiKey (ws1 ++ core ++ ws2) provider = true.
Proof.
  intros H1 H2 Hcore. apply validateApiKey_shape.
  destruct (KeyShape_ends _ _ Hcore) as (c & mid & c' & Heq & Hc & Hc').
  rewrite Heq, trim_padded by assumption. now rewrite <- Heq.
Qed.

End Trim.

(** ** The save handler *)

Section Save.

Lemma provider_eqb_eq a b : provider_eqb a b = true <-> a = b.
Proof. destruct a, b; simpl; split; congruence. Qed.

(** The key cell the provider selects. *)
Lemma requiredKey_buffer d :
  Config.requiredKey (edit_buffer d) =
  match provider d with openai => apiKey d | claude => claudeApiKey d end.
Proof. reflexivity. Qed.

(** The three ways [handleSave] can leave its synchronous part. *)
Lemma handleSave_submit_cases d :
  let key := Config.requiredKey (edit_buffer d) in
  handleSave_submit d =
  if truthy key then
    if validateApiKey key (provider d) then
      (Some (edit_buffer d),
       setIsLoading true (setValidationError "" d),
       [UpdateConfig (edit_buffer d)])
    else
      (None,
       setValidationError
         match provider d with
         | openai =>
             "Invalid OpenAI API key format. Keys should start with 'sk-'"
         | claude =>
             "Invalid Claude API key format. Keys should start with 'sk-ant-' or 'sk_ant_'"
         end (setValidationError "" d),
       [])
  else
    (None,
     setValidationError
       match provider d with
       | openai => "OpenAI API key is required"
       | claude => "Claude API key is required"
       end (setValidationError "" d),
     []).
Proof.
  rewrite requiredKey_buffer.
  unfold handleSave_submit, bind, get, set, emit, ret.
  cbn [setValidationError provider apiKey claudeApiKey].
  destruct (provider d); cbn [provider_eqb andb].
  - destruct (truthy (apiKey d)); cbn [negb andb];
      [destruct (validateApiKey (apiKey d) openai)|]; reflexivity.
  - destruct (truthy (claudeApiKey d)); cbn [negb andb];
      [destruct (validateApiKey (claudeApiKey d) claude)|]; reflexivity.
Qed.

(** When the handler reaches [updateConfig], it submits the edit buffer,
    whose required key is present and valid. *)
Lemma handleSave_submit_Some d c d' es :
  handleSave_submit d = (Some c, d', es) ->
  c = edit_buffer d /\
  d' = setIsLoading true (setValidationError "" d) /\
  es = [UpdateConfig c] /\
  truthy (Config.requiredKey c) = true /\
  validateApiKey (Config.requiredKey c) (Config.provider c) = true.
Proof.
  rewrite handleSave_submit_cases. cbv zeta.
  destruct (truthy _) eqn:Ht; [|discriminate].
  destruct (validateApiKey _ _) eqn:Hv; [|discriminate].
  intros [= <- <- <-]. auto.
Qed.

(** When it returns early nothing is emitted and only the validation
    message is written. *)
Lemma handleSave_submit_None d d' es :
  handleSave_submit d = (None, d', es) ->
  es = [] /\ exists msg, d' = setValidationError msg d /\ msg <> ""%string.
Proof.
  rewrite handleSave_submit_cases. cbv zeta.
  destruct (truthy _); [destruct (validateApiKey _ _); [discriminate|]|];
    intros [= <- <-]; (split; [reflexivity|]);
    destruct (provider d); eexists; (split; [reflexivity | discriminate]).
Qed.

Lemma truthy_nonempty s : truthy s = true <-> s <> [].
Proof. destruct s; simpl; split; congruence. Qed.

Lemma required_key_ok_intro c :
  truthy (Config.requiredKey c) = true ->
  validateApiKey (Config.requiredKey c) (Config.provider c) = true ->
  required_key_ok c.
Proof.
  intros Ht Hv. repeat split; auto.
  - now apply truthy_nonempty.
  - apply spec_pattern_shape. now apply validateApiKey_shape.
Qed.

End Save.

(** ** The lifecycle: what reaches the bridge *)

Section Lifecycle.

Lemma updateConfig_calls_app es1 es2 :
  updateConfig_calls (es1 ++ es2) =
  updateConfig_calls es1 ++ updateConfig_calls es2.
Proof.
  induction es1 as [|e es1 IH]; [reflexivity|].
  destruct e; cbn [app updateConfig_calls]; rewrite IH; reflexivity.
Qed.

Lemma updateConfig_calls_In c es :
  In (UpdateConfig c) es <-> In c (updateConfig_calls es).
Proof.
  induction es as [|e es IH]; [reflexivity|].
  destruct e; cbn [In updateConfig_calls]; rewrite IH;
    try (split; [intros [H | H]; [discriminate | assumption] | auto]).
  split; (intros [H | H]; [left; congruence | right; assumption]).
Qed.

Lemma perform_log {A} (h : Handler A) s :
  log (snd (perform h s)) = log s ++ snd (h (dialog s)).
Proof.
  unfold perform. destruct (h (dialog s)) as [[a d] es]. reflexivity.
Qed.

Lemma after_render_calls w s :
  updateConfig_calls (log (after_render w s)) = updateConfig_calls (log s).
Proof.
  unfold after_render. destruct (negb w && open (dialog s)); [|reflexivity].
  cbn [log]. rewrite perform_log, updateConfig_calls_app.
  cbn. apply app_nil_r.
Qed.

Lemma handleOpenChange_calls p b d :
  updateConfig_calls (snd (handleOpenChange p b d)) = [].
Proof.
  unfold handleOpenChange, bind, set, emit, ret.
  destruct (onOpenChange p && differs b (externalOpen p)); reflexivity.
Qed.

Lemma load_settle_calls o d :
  updateConfig_calls (snd (load_settle o d)) = [].
Proof. destruct o; reflexivity. Qed.

Lemma handleSave_settle_calls p o d :
  updateConfig_calls (snd (handleSave_settle p o d)) = [].
Proof.
  destruct o as [[|]|]; try reflexivity.
  unfold handleSave_settle, handleOpenChange, bind, set, emit, ret.
  destruct (onOpenChange p && differs false (externalOpen p)); reflexivity.
Qed.

Lemma sync_external_calls old new d :
  updateConfig_calls (snd (sync_external old new d)) = [].
Proof.
  unfold sync_external. destruct (externalOpen new) as [b|]; [|reflexivity].
  destruct (differs b (externalOpen old)); reflexivity.
Qed.

(** Only a click on Save adds a call of [updateConfig], and the call
    carries the edit buffer with its required key checked. *)
Lemma step_calls s e s' :
  step s e = Some s' ->
  updateConfig_calls (log s') = updateConfig_calls (log s) \/
  (e = ClickSave /\
   updateConfig_calls (log s') =
     updateConfig_calls (log s) ++ [edit_buffer (dialog s)] /\
   required_key_ok (edit_buffer (dialog s))).
Proof.
  destruct e; cbn [step].
  - intros [= <-]. left. rewrite after_render_calls. cbn [log].
    now rewrite perform_log, updateConfig_calls_app, sync_external_calls,
      app_nil_r.
  - destruct (open (dialog s)); [|discriminate]. intros [= <-]. left.
    now rewrite after_render_calls, perform_log, updateConfig_calls_app,
      handleOpenChange_calls, app_nil_r.
  - destruct (open (dialog s)); [|discriminate]. intros [= <-]. left.
    cbn [log]. now rewrite app_nil_r.
  - destruct (_ && _); [|discriminate]. intros [= <-]. left.
    cbn [log]. now rewrite app_nil_r.
  - destruct (_ && _); [|discriminate]. intros [= <-]. left.
    cbn [log]. now rewrite app_nil_r.
  - destruct (_ && _); [|discriminate]. intros [= <-]. left.
    cbn [log]. now rewrite app_nil_r.
  - destruct (_ && _); [|discriminate].
    unfold perform.
    destruct (handleSave_submit (dialog s)) as [[[c|] d'] es] eqn:Hs.
    + apply handleSave_submit_Some in Hs as (-> & -> & -> & Ht & Hv).
      intros [= <-]. right. cbn [log].
      rewrite updateConfig_calls_app.
      split; [reflexivity|]. split; [reflexivity|].
      now apply required_key_ok_intro.
    + apply handleSave_submit_None in Hs as (-> & _).
      intros [= <-]. left. cbn [log]. now rewrite app_nil_r.
  - destruct (pendingLoads s); [discriminate|]. intros [= <-]. left.
    cbn [log].
    now rewrite perform_log, updateConfig_calls_app, load_settle_calls,
      app_nil_r.
  - destruct (nth_error (pendingSaves s) n) as [p|]; [|discriminate].
    intros [= <-]. left. rewrite after_render_calls. cbn [log].
    now rewrite perform_log, updateConfig_calls_app,
      handleSave_settle_calls, app_nil_r.
Qed.

Lemma mount_calls p : updateConfig_calls (log (mount p)) = [].
Proof. unfold mount. now rewrite after_render_calls. Qed.

Lemma run_calls_ok es :
  forall s s',
    run s es = Some s' ->
    Forall required_key_ok (updateConfig_calls (log s)) ->
    Forall required_key_ok (updateConfig_calls (log s')).
Proof.
  induction es as [|e es IH]; intros s s'; cbn [run].
  - now intros [= <-].
  - destruct (step s e) as [s1|] eqn:Hstep; [|discriminate].
    intros Hrun Hok. apply (IH _ _ Hrun).
    destruct (step_calls _ _ Hstep) as [-> | (_ & -> & Hc)]; [assumption|].
    apply Forall_app. split; [assumption | now constructor].
Qed.

(** In the event loop, a save that is rejected leaves the edit buffer and
    the dialog as they are and shows the error notification. *)
Lemma step_save_rejected s n s' :
  step s (UpdateConfigSettles n Rejected) = Some s' ->
  edit_buffer (dialog s') = edit_buffer (dialog s) /\
  open (dialog s') = open (dialog s) /\
  isLoading (dialog s') = false /\
  log s' = log s ++ [ConsoleError "Failed to save settings:";
                     ShowToast "Error" "Failed to save settings" "error"].
Proof.
  cbn [step]. destruct (nth_error (pendingSaves s) n); [|discriminate].
  intros [= <-]. unfold after_render. cbn.
  destruct (open (dialog s)) eqn:Ho; cbn; repeat split; auto.
Qed.

(** A save that resolves to [false] only clears the busy flag. *)
Lemma step_save_false s n s' :
  step s (UpdateConfigSettles n (Resolved false)) = Some s' ->
  dialog s' = setIsLoading false (dialog s) /\ log s' = log s ++ [].
Proof.
  cbn [step]. destruct (nth_error (pendingSaves s) n); [|discriminate].
  intros [= <-]. unfold after_render. cbn.
  destruct (open (dialog s)) eqn:Ho; cbn; repeat split; auto.
Qed.

(** While the busy flag is set the Save button is disabled. *)
Lemma busy_blocks_save s :
  isLoading (dialog s) = true -> step s ClickSave = None.
Proof.
  intros H. cbn [step]. rewrite H. now rewrite andb_false_r.
Qed.

End Lifecycle.

(** ** The validator *)

(** C1: for every string, the validator with provider [openai] returns
    true exactly when the trimmed string matches [^sk-[A-Za-z0-9]{32,}$],
    and with provider [claude] exactly when the trimmed string matches
    [^sk[-_]ant[-_][A-Za-z0-9]{32,}$]. *)
Theorem validateApiKey_iff_spec_pattern (s : jsstring) :
  (validateApiKey s openai = true <->
   Matches (spec_pattern openai) (trim s)) /\
  (validateApiKey s claude = true <->
   Matches (spec_pattern claude) (trim s)).
Proof.
  split; rewrite validateApiKey_shape, spec_pattern_shape; reflexivity.
Qed.

(** C3: the validator is a total function of its two arguments: on every
    string and provider it yields a boolean, false on everything that
    does not match the provider's pattern after trimming, the empty string
    included. *)
Theorem validateApiKey_total (key : jsstring) (provider : Provider) :
  (exists b : bool, validateApiKey key provider = b) /\
  (validateApiKey key provider = false <->
   ~ Matches (spec_pattern provider) (trim key)) /\
  validateApiKey (lit "") provider = false.
Proof.
  split; [eexists; reflexivity|]. split.
  - rewrite spec_pattern_shape, <- validateApiKey_shape.
    destruct (validateApiKey key provider); split; congruence.
  - destruct provider; reflexivity.
Qed.

(** ** Saving *)

Lemma state_after_reachable p es : Reachable (state_after p es).
Proof.
  unfold state_after. destruct (run (mount p) es) as [s|] eqn:Hrun.
  - now exists p, es.
  - now exists p, [].
Qed.

(** C2: in every state the lifecycle can reach, each call of
    [updateConfig] made so far carried a configuration whose required key
    (the OpenAI key for provider [openai], the Claude key for provider
    [claude]) is non-empty and passes the provider's pattern. *)
Theorem updateConfig_only_with_validated_key (s : System)
        (c : Config.ProviderConfig) :
  Reachable s -> In (UpdateConfig c) (log s) -> required_key_ok c.
Proof.
  intros (p & es & Hrun) Hin.
  apply updateConfig_calls_In in Hin.
  assert (Hall : Forall required_key_ok (updateConfig_calls (log s))).
  { apply (run_calls_ok _ _ Hrun). rewrite mount_calls. constructor. }
  rewrite Forall_forall in Hall. now apply Hall.
Qed.

Lemma updateConfig_only_with_validated_key_witness :
  In (UpdateConfig loaded_openai) (log (state_after parent_open load_save)) /\
  required_key_ok loaded_openai.
Proof.
  assert (Hin : In (UpdateConfig loaded_openai)
                   (log (state_after parent_open load_save))).
  { vm_compute. auto. }
  split; [exact Hin|].
  apply (@updateConfig_only_with_validated_key
           (state_after parent_open load_save) loaded_openai).
  - exists parent_open, load_save. vm_compute. reflexivity.
  - exact Hin.
Defined.

Section WholeSave.

Variable p : Props.
Variable updateConfig : Config.ProviderConfig -> outcome bool.

(** [handleSave] when the validation passes: the submission, then
    whatever follows the answer of [updateConfig]. *)
Lemma handleSave_accepted d c d1 es1 :
  handleSave_submit d = (Some c, d1, es1) ->
  handleSave p updateConfig d =
  (tt, snd (fst (handleSave_settle p (updateConfig c) d1)),
       es1 ++ snd (handleSave_settle p (updateConfig c) d1)).
Proof.
  intros H. unfold handleSave, bind. rewrite H.
  destruct (handleSave_settle p (updateConfig c) d1) as [[[] d2] es2].
  reflexivity.
Qed.

(** [handleSave] when the validation fails: the early return. *)
Lemma handleSave_refused d d1 es1 :
  handleSave_submit d = (None, d1, es1) ->
  handleSave p updateConfig d = (tt, d1, es1 ++ []).
Proof.
  intros H. unfold handleSave, bind. rewrite H. reflexivity.
Qed.

End WholeSave.

(** C5: when [handleSave] has submitted the edit buffer and [updateConfig]
    fails, the error notification "Failed to save settings" is shown and
    the edit buffer (provider, both keys, the three models) is what it was
    before the save; the dialog stays as it was and the busy flag is
    cleared. *)
Theorem save_failure_keeps_edit_buffer
        (p : Props) (updateConfig : Config.ProviderConfig -> outcome bool)
        (d : Dialog) (c : Config.ProviderConfig) :
  fst (fst (handleSave_submit d)) = Some c ->
  updateConfig c = Rejected ->
  exists d',
    handleSave p updateConfig d =
    (tt, d',
     [UpdateConfig c;
      ConsoleError "Failed to save settings:";
      ShowToast "Error" "Failed to save settings" "error"]) /\
    edit_buffer d' = edit_buffer d /\
    open d' = open d /\
    isLoading d' = false.
Proof.
  intros Hs Hu.
  destruct (handleSave_submit d) as [[o d1] es1] eqn:Hsub.
  cbn [fst] in Hs. subst o.
  rewrite (handleSave_accepted p updateConfig _ Hsub), Hu.
  apply handleSave_submit_Some in Hsub as (_ & -> & -> & _).
  eexists. split; [reflexivity|]. repeat split.
Qed.

Lemma save_failure_keeps_edit_buffer_witness :
  exists d',
    handleSave parent_open always_rejects (editing loaded_openai) =
    (tt, d',
     [UpdateConfig loaded_openai;
      ConsoleError "Failed to save settings:";
      ShowToast "Error" "Failed to save settings" "error"]) /\
    edit_buffer d' = edit_buffer (editing loaded_openai) /\
    open d' = open (editing loaded_openai) /\
    isLoading d' = false.
Proof.
  apply (@save_failure_keeps_edit_buffer
           parent_open always_rejects (editing loaded_openai)
           loaded_openai).
  - vm_compute. reflexivity.
  - reflexivity.
Defined.

(** C6: with provider [openai] and the key "sk-short", and with provider
    [claude] and an empty Claude key, [handleSave] returns before any
    submission: it emits nothing, whatever [updateConfig] would answer,
    and leaves the message "Invalid OpenAI API key format. Keys should
    start with 'sk-'", respectively "Claude API key is required". *)
Theorem save_rejects_short_and_missing_key
        (p : Props) (updateConfig : Config.ProviderConfig -> outcome bool)
        (d : Dialog) :
  provider d = openai /\ apiKey d = lit "sk-short" \/
  provider d = claude /\ claudeApiKey d = lit "" ->
  exists msg,
    handleSave p updateConfig d = (tt, setValidationError msg d, []) /\
    fst (fst (handleSave_submit d)) = None /\
    msg = match provider d with
          | openai =>
              "Invalid OpenAI API key format. Keys should start with 'sk-'"
          | claude => "Claude API key is required"
          end%string /\
    (provider d = openai ->
     prefix "Invalid OpenAI API key format" msg = true).
Proof.
  intros H. eexists.
  assert (Hsub : handleSave_submit d =
                 (None,
                  setValidationError
                    match provider d with
                    | openai =>
                        "Invalid OpenAI API key format. Keys should start with 'sk-'"
                    | claude => "Claude API key is required"
                    end d, [])).
  { rewrite handleSave_submit_cases, requiredKey_buffer. cbv zeta.
    destruct H as [[Hp Hk] | [Hp Hk]]; rewrite Hp, Hk; reflexivity. }
  rewrite (handleSave_refused p updateConfig _ Hsub), Hsub.
  repeat split.
  destruct H as [[Hp _] | [Hp _]]; rewrite Hp; [reflexivity | discriminate].
Qed.

Lemma save_rejects_short_and_missing_key_witness :
  (exists msg,
     handleSave parent_open always_false (editing short_openai) =
     (tt, setValidationError msg (editing short_openai), []) /\
     msg = "Invalid OpenAI API key format. Keys should start with 'sk-'"%string)
  /\
  (exists msg,
     handleSave parent_open always_false (editing empty_claude) =
     (tt, setValidationError msg (editing empty_claude), []) /\
     msg = "Claude API key is required"%string).
Proof.
  split.
  - destruct (@save_rejects_short_and_missing_key
                parent_open always_false
                (editing short_openai))
      as (msg & H1 & _ & H2 & _).
    + left. split; reflexivity.
    + exists msg. split; assumption.
  - destruct (@save_rejects_short_and_missing_key
                parent_open always_false (editing empty_claude))
      as (msg & H1 & _ & H2 & _).
    + right. split; reflexivity.
    + exists msg. split; assumption.
Defined.

(** C7: with provider [openai] and the key "sk-" followed by 32 letters
    [a], the validation passes and [handleSave] calls [updateConfig]
    exactly once, with a configuration whose [apiKey] is that string. *)
Theorem save_accepts_key_of_32_a
        (p : Props) (updateConfig : Config.ProviderConfig -> outcome bool)
        (d : Dialog) :
  provider d = openai ->
  apiKey d = lit "sk-" ++ repeat 97%N 32 ->
  fst (fst (handleSave_submit d)) = Some (edit_buffer d) /\
  exists c,
    updateConfig_calls (snd (handleSave p updateConfig d)) = [c] /\
    Config.apiKey c = lit "sk-" ++ repeat 97%N 32.
Proof.
  intros Hp Hk.
  assert (Hsub : handleSave_submit d =
                 (Some (edit_buffer d),
                  setIsLoading true (setValidationError "" d),
                  [UpdateConfig (edit_buffer d)])).
  { rewrite handleSave_submit_cases, requiredKey_buffer. cbv zeta.
    rewrite Hp, Hk. reflexivity. }
  split; [now rewrite Hsub|].
  exists (edit_buffer d). split; [|exact Hk].
  rewrite (handleSave_accepted p updateConfig _ Hsub). cbn [snd].
  rewrite updateConfig_calls_app, handleSave_settle_calls. reflexivity.
Qed.

Lemma save_accepts_key_of_32_a_witness :
  exists c,
    updateConfig_calls
      (snd (handleSave parent_open always_false (editing loaded_openai)))
    = [c] /\
    Config.apiKey c = lit "sk-" ++ repeat 97%N 32.
Proof.
  apply (@save_accepts_key_of_32_a
           parent_open always_false (editing loaded_openai));
    reflexivity.
Defined.

(** C9: the validator trims, the submission does not.  When the required
    key is a string matching the provider's pattern with white space
    before or after it, the validation passes and [updateConfig] is
    called once with the key as typed, white space included. *)
Theorem save_submits_untrimmed_key
        (p : Props) (updateConfig : Config.ProviderConfig -> outcome bool)
        (d : Dialog) (ws1 core ws2 : jsstring) :
  forallb is_white_space ws1 = true ->
  forallb is_white_space ws2 = true ->
  Matches (spec_pattern (provider d)) core ->
  Config.requiredKey (edit_buffer d) = ws1 ++ core ++ ws2 ->
  trim (ws1 ++ core ++ ws2) = core /\
  fst (fst (handleSave_submit d)) = Some (edit_buffer d) /\
  exists c,
    updateConfig_calls (snd (handleSave p updateConfig d)) = [c] /\
    Config.provider c = provider d /\
    Config.requiredKey c = ws1 ++ core ++ ws2.
Proof.
  intros H1 H2 Hcore Hkey.
  apply spec_pattern_shape in Hcore.
  assert (Hv : validateApiKey (ws1 ++ core ++ ws2) (provider d) = true)
    by now apply padded_key_valid.
  assert (Hsub : handleSave_submit d =
                 (Some (edit_buffer d),
                  setIsLoading true (setValidationError "" d),
                  [UpdateConfig (edit_buffer d)])).
  { rewrite handleSave_submit_cases. cbv zeta.
    rewrite Hkey, Hv, (valid_key_truthy _ _ Hv). reflexivity. }
  split; [|split].
  - destruct (KeyShape_ends _ _ Hcore) as (a & mid & b & -> & Ha & Hb).
    now apply trim_padded.
  - now rewrite Hsub.
  - exists (edit_buffer d). split; [|split; [reflexivity | exact Hkey]].
    rewrite (handleSave_accepted p updateConfig _ Hsub). cbn [snd].
    rewrite updateConfig_calls_app, handleSave_settle_calls. reflexivity.
Qed.

Lemma save_submits_untrimmed_key_witness :
  trim (lit "  " ++ claude_core ++ [10%N]) = claude_core /\
  exists c,
    updateConfig_calls
      (snd (handleSave parent_open always_false (editing padded_claude)))
    = [c] /\
    Config.provider c = claude /\
    Config.requiredKey c = lit "  " ++ claude_core ++ [10%N].
Proof.
  destruct (@save_submits_untrimmed_key
              parent_open always_false (editing padded_claude)
              (lit "  ") claude_core [10%N]) as (Ht & _ & Hc).
  - reflexivity.
  - reflexivity.
  - apply test_correct. vm_compute. reflexivity.
  - reflexivity.
  - split; [exact Ht | exact Hc].
Defined.

(** C10: when [updateConfig] resolves to [false], what follows the
    [await] emits nothing (no notification, no [onOpenChange], no reload)
    and writes only the busy flag; over the whole of [handleSave] the only
    effect is the call of [updateConfig], the dialog stays as it was and
    the edit buffer is unchanged. *)
Theorem save_resolving_false_is_silent
        (p : Props) (updateConfig : Config.ProviderConfig -> outcome bool)
        (d d1 : Dialog) (c : Config.ProviderConfig) (es1 : list effect) :
  handleSave_submit d = (Some c, d1, es1) ->
  updateConfig c = Resolved false ->
  handleSave_settle p (updateConfig c) d1 = (tt, setIsLoading false d1, []) /\
  handleSave p updateConfig d = (tt, setIsLoading false d1, [UpdateConfig c]) /\
  filter is_toast (snd (handleSave p updateConfig d)) = [] /\
  open (setIsLoading false d1) = open d /\
  edit_buffer (setIsLoading false d1) = edit_buffer d /\
  isLoading (setIsLoading false d1) = false.
Proof.
  intros Hsub Hu.
  rewrite (handleSave_accepted p updateConfig _ Hsub), Hu.
  apply handleSave_submit_Some in Hsub as (_ & -> & -> & _).
  repeat split.
Qed.

Lemma save_resolving_false_is_silent_witness :
  handleSave parent_open always_false (editing loaded_openai) =
  (tt, setIsLoading false (setValidationError "" (editing loaded_openai)),
   [UpdateConfig loaded_openai]).
Proof.
  apply (@save_resolving_false_is_silent
           parent_open always_false (editing loaded_openai)
           (setIsLoading true (setValidationError "" (editing loaded_openai)))
           loaded_openai [UpdateConfig loaded_openai]).
  - vm_compute. reflexivity.
  - reflexivity.
Defined.

(** ** Loading *)

(** C4, as the code has it: when the load fails, the error notification
    "Failed to load settings" is shown and the edit buffer is left as it
    was; it holds the defaults (provider [openai], the three models
    "gpt-4o", empty keys) when it held them before the load. *)
Theorem load_failure_keeps_edit_buffer (s s' : System) :
  step s (GetConfigSettles Rejected) = Some s' ->
  log s' = log s ++ [ConsoleError "Failed to load config:";
                     ShowToast "Error" "Failed to load settings" "error"] /\
  edit_buffer (dialog s') = edit_buffer (dialog s) /\
  (edit_buffer (dialog s) = default_buffer ->
   edit_buffer (dialog s') = default_buffer).
Proof.
  cbn [step]. destruct (pendingLoads s); [discriminate|].
  intros [= <-].
  split; [reflexivity|]. split; [reflexivity|]. intros H. exact H.
Qed.

Lemma load_failure_keeps_edit_buffer_witness :
  log (state_after parent_open [GetConfigSettles Rejected]) =
    [GetConfig;
     ConsoleError "Failed to load config:";
     ShowToast "Error" "Failed to load settings" "error"] /\
  edit_buffer (dialog (state_after parent_open [GetConfigSettles Rejected]))
  = default_buffer.
Proof.
  destruct (@load_failure_keeps_edit_buffer
              (mount parent_open)
              (state_after parent_open [GetConfigSettles Rejected]))
    as (Hlog & _ & Hdef).
  - vm_compute. reflexivity.
  - split; [exact Hlog | apply Hdef; reflexivity].
Defined.

(** C4 as stated fails: after a load that brought a stored key, closing
    the dialog and opening it again starts a second load; when that one
    fails the notification is shown and the buffer still holds the stored
    key, not the defaults. *)
Lemma load_failure_buffer_not_default :
  Reachable (state_after parent_open load_close_reopen) /\
  exists s',
    step (state_after parent_open load_close_reopen)
         (GetConfigSettles Rejected) = Some s' /\
    In (ShowToast "Error" "Failed to load settings" "error") (log s') /\
    Config.apiKey (edit_buffer (dialog s')) = key_a32 /\
    edit_buffer (dialog s') <> default_buffer.
Proof.
  split.
  - exists parent_open, load_close_reopen. vm_compute. reflexivity.
  - eexists. split; [vm_compute; reflexivity|].
    split; [cbn; tauto|]. split; [reflexivity | discriminate].
Qed.

(** ** The busy flag *)

(** C8 fails on the code: [isLoading] is shared by the load and the save.
    After a first save is submitted the flag is set and Save is disabled;
    when the dialog is closed and opened again while that save is
    outstanding, the new load clears the flag on settling, Save is enabled
    again, and a second click submits a second save: two saves are in
    flight. *)
Theorem second_save_while_first_outstanding :
  saves_in_flight (state_after parent_open load_save) = 1 /\
  isLoading (dialog (state_after parent_open load_save)) = true /\
  step (state_after parent_open load_save) ClickSave = None /\
  exists s,
    run (mount parent_open) save_reopen_save = Some s /\
    saves_in_flight s = 2 /\
    updateConfig_calls (log s) = [loaded_openai; loaded_openai].
Proof.
  split; [reflexivity|]. split; [reflexivity|]. split; [reflexivity|].
  eexists. split; [vm_compute; reflexivity|]. split; reflexivity.
Qed.

(** * Further properties of the component *)

(** ** The validator and white space *)

Section TrimMore.

Local Close Scope handler_scope.

Lemma trimStart_nil_white s :
  trimStart s = [] <-> forallb is_white_space s = true.
Proof.
  induction s as [|c s IH]; cbn [trimStart forallb]; [tauto|].
  destruct (is_white_space c); cbn [andb]; [exact IH|].
  split; discriminate.
Qed.

Lemma trimStart_app s t :
  trimStart s <> [] -> trimStart (s ++ t) = trimStart s ++ t.
Proof.
  induction s as [|c s IH]; cbn [trimStart app]; [congruence|].
  destruct (is_white_space c); [exact IH | reflexivity].
Qed.

(** What [trimStart] drops is white space. *)
Lemma trimStart_split s :
  exists ws, s = ws ++ trimStart s /\ forallb is_white_space ws = true.
Proof.
  induction s as [|c s (ws & Heq & Hws)]; cbn [trimStart].
  - now exists [].
  - destruct (is_white_space c) eqn:Hc.
    + exists (c :: ws). cbn [app forallb]. rewrite Hc, Hws, <- Heq. auto.
    + now exists [].
Qed.

Lemma trimEnd_split s :
  exists ws, s = trimEnd s ++ ws /\ forallb is_white_space ws = true.
Proof.
  destruct (trimStart_split (rev s)) as (ws & Heq & Hws).
  exists (rev ws). split.
  - unfold trimEnd. rewrite <- rev_app_distr, <- Heq.
    now rewrite rev_involutive.
  - now rewrite forallb_rev.
Qed.

Lemma trim_split s :
  exists ws1 ws2,
    s = ws1 ++ trim s ++ ws2 /\
    forallb is_white_space ws1 = true /\ forallb is_white_space ws2 = true.
Proof.
  destruct (trimStart_split s) as (ws1 & H1 & Hw1).
  destruct (trimEnd_split (trimStart s)) as (ws2 & H2 & Hw2).
  exists ws1, ws2. unfold trim. now rewrite <- H2.
Qed.

Lemma trim_padding ws1 s ws2 :
  forallb is_white_space ws1 = true ->
  forallb is_white_space ws2 = true ->
  trim (ws1 ++ s ++ ws2) = trim s.
Proof.
  intros H1 H2. unfold trim. rewrite trimStart_white by assumption.
  destruct (trimStart s) as [|c r] eqn:Hs.
  - assert (Hall : trimStart (s ++ ws2) = []).
    { apply trimStart_nil_white. rewrite forallb_app, H2.
      apply trimStart_nil_white in Hs. now rewrite Hs. }
    now rewrite Hall.
  - rewrite trimStart_app by (rewrite Hs; discriminate).
    rewrite Hs. now apply trimEnd_white.
Qed.

Lemma trim_length s : length (trim s) <= length s.
Proof.
  destruct (trim_split s) as (ws1 & ws2 & Heq & _).
  rewrite Heq at 2. rewrite !length_app. lia.
Qed.

Lemma KeyShape_length provider s :
  KeyShape provider s ->
  match provider with openai => 35 | claude => 39 end <= length s.
Proof.
  destruct provider; cbn [KeyShape].
  - intros (body & -> & Hlen & _). rewrite length_app. cbn. lia.
  - intros (s1 & s2 & body & -> & _ & _ & Hlen & _).
    rewrite !length_app. cbn. lia.
Qed.

(** An accepted key is long enough to be displayed masked. *)
Lemma valid_key_long key provider :
  validateApiKey key provider = true -> 10 <= length key.
Proof.
  intros H. apply validateApiKey_shape, KeyShape_length in H.
  pose proof (trim_length key). destruct provider; lia.
Qed.

End TrimMore.

(** X1: white space before and after a candidate key never changes the
    verdict of the validator, whether the key is well formed or not. *)
Theorem validateApiKey_ignores_padding
        (ws1 key ws2 : jsstring) (provider : Provider) :
  forallb is_white_space ws1 = true ->
  forallb is_white_space ws2 = true ->
  validateApiKey (ws1 ++ key ++ ws2) provider = validateApiKey key provider.
Proof.
  intros H1 H2. destruct provider; cbn [validateApiKey];
    now rewrite trim_padding.
Qed.

Lemma validateApiKey_ignores_padding_witness :
  validateApiKey (lit "  " ++ lit "sk-short" ++ [10%N]) openai =
  validateApiKey (lit "sk-short") openai.
Proof.
  apply (@validateApiKey_ignores_padding (lit "  ") (lit "sk-short") [10%N]
           openai); reflexivity.
Defined.

(** X2: trimming a key first makes no difference: the validator gives the
    same verdict on a key and on its trimmed form. *)
Theorem validateApiKey_trim_idempotent (key : jsstring) (provider : Provider) :
  trim (trim key) = trim key /\
  validateApiKey (trim key) provider = validateApiKey key provider.
Proof.
  assert (H : trim (trim key) = trim key).
  { destruct (trim_split key) as (ws1 & ws2 & Heq & H1 & H2).
    rewrite Heq at 2. now rewrite trim_padding. }
  split; [exact H|]. destruct provider; cbn [validateApiKey]; now rewrite H.
Qed.

(** X3: the two key formats exclude each other: a key accepted for OpenAI
    is refused for Claude, and a key accepted for Claude is refused for
    OpenAI. *)
Theorem provider_formats_disjoint (key : jsstring) :
  (validateApiKey key openai = true -> validateApiKey key claude = false) /\
  (validateApiKey key claude = true -> validateApiKey key openai = false).
Proof.
  assert (H : validateApiKey key openai = true ->
              validateApiKey key claude = true -> False).
  { intros Ho Hc.
    apply validateApiKey_shape in Ho, Hc. cbn [KeyShape] in Ho, Hc.
    destruct Ho as (body & Heq & _ & Hall).
    destruct Hc as (s1 & s2 & body' & Heq' & _ & Hs2 & _).
    rewrite Heq in Heq'. cbn in Heq'.
    injection Heq' as _ ->. cbn [forallb] in Hall.
    do 3 (apply andb_true_iff in Hall as [_ Hall]).
    apply andb_true_iff in Hall as [Ha _].
    unfold in_class, alnum, dash_or_underscore, in_range in Ha, Hs2.
    cbn [existsb fst snd] in Ha, Hs2.
    rewrite ?orb_false_r in Ha, Hs2.
    repeat match goal with
           | H : _ || _ = true |- _ => apply orb_true_iff in H as [H | H]
           | H : _ && _ = true |- _ => apply andb_true_iff in H as [? ?]
           | H : (_ <=? _)%N = true |- _ => apply N.leb_le in H
           end; lia. }
  split; intros H1; destruct (validateApiKey key _) eqn:H2 in |- *;
    try reflexivity; exfalso; auto.
Qed.

Lemma provider_formats_disjoint_witness :
  validateApiKey key_a32 claude = false /\
  validateApiKey claude_core openai = false.
Proof.
  split.
  - apply (proj1 (provider_formats_disjoint key_a32)). reflexivity.
  - apply (proj2 (provider_formats_disjoint claude_core)). reflexivity.
Defined.

(** X4: a key the validator accepts has at least 35 code units for OpenAI
    and 39 for Claude, white space not counted. *)
Theorem accepted_key_length (key : jsstring) (provider : Provider) :
  validateApiKey key provider = true ->
  match provider with openai => 35 | claude => 39 end <= length (trim key) /\
  length (trim key) <= length key.
Proof.
  intros H. apply validateApiKey_shape in H.
  split; [now apply KeyShape_length | apply trim_length].
Qed.

Lemma accepted_key_length_witness :
  35 <= length (trim key_a32) /\ length (trim key_a32) <= length key_a32.
Proof.
  apply (@accepted_key_length key_a32 openai). reflexivity.
Defined.

(** ** The masked key *)

Section Mask.

Local Close Scope handler_scope.

Lemma maskApiKey_short key : length key < 10 -> maskApiKey key = [].
Proof.
  intros H. unfold maskApiKey.
  apply Nat.ltb_lt in H. rewrite H. now rewrite orb_true_r.
Qed.

Lemma maskApiKey_long key :
  10 <= length key ->
  maskApiKey key = firstn 4 key ++ lit "..." ++ skipn (length key - 4) key.
Proof.
  intros H. unfold maskApiKey, substring.
  assert (Ht : truthy key = true) by (destruct key; [cbn in H; lia | reflexivity]).
  assert (Hl : (length key <? 10) = false) by (apply Nat.ltb_ge; lia).
  rewrite Ht, Hl. cbn [negb orb].
  rewrite Nat.min_0_l, Nat.min_id.
  rewrite (Nat.min_l 4 (length key)) by lia.
  rewrite (Nat.min_l (length key - 4) (length key)) by lia.
  cbn [Nat.max Nat.min Nat.sub skipn].
  rewrite (Nat.max_r (length key - 4) (length key)) by lia.
  rewrite (Nat.min_l (length key - 4) (length key)) by lia.
  replace (length key - (length key - 4)) with 4 by lia.
  rewrite (firstn_all2 (n := 4) (skipn (length key - 4) key));
    [reflexivity | rewrite length_skipn; lia].
Qed.

End Mask.

(** X5: the mask is empty for a key shorter than ten code units, the empty
    key included, and has exactly eleven code units otherwise. *)
Theorem maskApiKey_length (key : jsstring) :
  length (maskApiKey key) = if length key <? 10 then 0 else 11.
Proof.
  destruct (Nat.ltb_spec (length key) 10) as [H | H].
  - now rewrite maskApiKey_short.
  - rewrite maskApiKey_long by assumption.
    rewrite !length_app, length_firstn, length_skipn. cbn [lit length]. lia.
Qed.

(** X6: the mask of a key shows its first four and last four code units
    around three dots and nothing of what lies between: keys that differ
    only in the middle have the same mask. *)
Theorem maskApiKey_hides_middle (pre mid suf : jsstring) :
  length pre = 4 -> length suf = 4 -> 2 <= length mid ->
  maskApiKey (pre ++ mid ++ suf) = pre ++ lit "..." ++ suf.
Proof.
  intros Hp Hs Hm.
  rewrite maskApiKey_long by (rewrite !length_app; lia).
  rewrite firstn_app, Hp, Nat.sub_diag, firstn_O, app_nil_r.
  rewrite firstn_all2 by lia.
  assert (Hn : length (pre ++ mid ++ suf) - 4 = length (pre ++ mid))
    by (rewrite !length_app; lia).
  rewrite Hn, (app_assoc pre mid suf), skipn_app, skipn_all, Nat.sub_diag.
  reflexivity.
Qed.

Lemma maskApiKey_hides_middle_witness :
  maskApiKey (lit "sk-a" ++ lit "SECRET" ++ lit "wxyz") = lit "sk-a...wxyz".
Proof.
  apply (@maskApiKey_hides_middle (lit "sk-a") (lit "SECRET") (lit "wxyz"));
    cbn; lia.
Defined.

(** X7: every key the validator accepts is displayed masked: its mask has
    eleven code units, the first and last four of the key as typed. *)
Theorem accepted_key_is_masked (key : jsstring) (provider : Provider) :
  validateApiKey key provider = true ->
  maskApiKey key = firstn 4 key ++ lit "..." ++ skipn (length key - 4) key /\
  length (maskApiKey key) = 11.
Proof.
  intros H. apply valid_key_long in H.
  split; [now apply maskApiKey_long|].
  rewrite maskApiKey_length.
  destruct (Nat.ltb_spec (length key) 10); [lia | reflexivity].
Qed.

Lemma accepted_key_is_masked_witness :
  maskApiKey key_a32 = lit "sk-a...aaaa" /\ length (maskApiKey key_a32) = 11.
Proof.
  apply (@accepted_key_is_masked key_a32 openai). reflexivity.
Defined.

(** ** More on saving *)

(** X8: when [updateConfig] resolves to [true], [handleSave] shows the
    success notification, closes the dialog, tells the parent if it gave
    [onOpenChange] and did not already ask for the dialog to be closed,
    and schedules the reload after 1500 ms; the edit buffer is untouched
    and the busy flag is cleared. *)
Theorem save_success_closes_and_reloads
        (p : Props) (updateConfig : Config.ProviderConfig -> outcome bool)
        (d : Dialog) (c : Config.ProviderConfig) :
  fst (fst (handleSave_submit d)) = Some c ->
  updateConfig c = Resolved true ->
  exists d',
    handleSave p updateConfig d =
    (tt, d',
     [UpdateConfig c;
      ShowToast "Success" "Settings saved successfully" "success"]
     ++ (if onOpenChange p && differs false (externalOpen p)
         then [OnOpenChange false] else [])
     ++ [SetTimeoutReload 1500]) /\
    open d' = false /\
    isLoading d' = false /\
    validationError d' = ""%string /\
    edit_buffer d' = edit_buffer d.
Proof.
  intros Hs Hu.
  destruct (handleSave_submit d) as [[o d1] es1] eqn:Hsub.
  cbn [fst] in Hs. subst o.
  rewrite (handleSave_accepted p updateConfig _ Hsub), Hu.
  apply handleSave_submit_Some in Hsub as (_ & -> & -> & _).
  unfold handleSave_settle, handleOpenChange, bind, set, emit, ret.
  destruct (onOpenChange p && differs false (externalOpen p));
    eexists; (split; [reflexivity|]); repeat split.
Qed.

Lemma save_success_closes_and_reloads_witness :
  exists d',
    handleSave parent_silent always_true (editing loaded_openai) =
    (tt, d',
     [UpdateConfig loaded_openai;
      ShowToast "Success" "Settings saved successfully" "success";
      SetTimeoutReload 1500]) /\
    open d' = false /\
    isLoading d' = false /\
    validationError d' = ""%string /\
    edit_buffer d' = edit_buffer (editing loaded_openai).
Proof.
  apply (@save_success_closes_and_reloads
           parent_silent always_true (editing loaded_openai) loaded_openai).
  - vm_compute. reflexivity.
  - reflexivity.
Defined.

(** X9: a validation message is left exactly when the save was refused.
    A refused save emits nothing and writes no other cell; an accepted one
    clears the message and sets the busy flag. *)
Theorem validation_message_iff_refused (d : Dialog) :
  (fst (fst (handleSave_submit d)) = None <->
   validationError (snd (fst (handleSave_submit d))) <> ""%string) /\
  (fst (fst (handleSave_submit d)) = None ->
   snd (handleSave_submit d) = [] /\
   exists msg, snd (fst (handleSave_submit d)) = setValidationError msg d) /\
  (fst (fst (handleSave_submit d)) <> None ->
   isLoading (snd (fst (handleSave_submit d))) = true).
Proof.
  destruct (handleSave_submit d) as [[[c|] d1] es1] eqn:Hsub; cbn [fst snd].
  - apply handleSave_submit_Some in Hsub as (_ & -> & _).
    cbn [validationError setIsLoading setValidationError isLoading].
    split; [split; [discriminate | congruence]|].
    split; [discriminate | reflexivity].
  - apply handleSave_submit_None in Hsub as (-> & msg & -> & Hmsg).
    cbn [validationError setValidationError].
    split; [split; auto|]. split; [eauto | congruence].
Qed.



Lemma validation_message_iff_refused_witness :
  validationError (snd (fst (handleSave_submit (editing short_openai))))
  <> ""%string.
Proof.
  apply (proj1 (proj1 (validation_message_iff_refused (editing short_openai)))).
  reflexivity.
Defined.

(** ** More on loading *)

Section LoadMore.

Lemma truthy_or_else a b : truthy b = true -> truthy (or_else a b) = true.
Proof. unfold or_else. destruct (truthy a) eqn:Ha; auto. Qed.

Lemma truthy_string_or f b : truthy b = true -> truthy (string_or f b) = true.
Proof. destruct f; cbn [string_or]; auto using truthy_or_else. Qed.

Lemma or_else_nil a : or_else a (lit "") = a.
Proof. now destruct a. Qed.

Lemma or_else_truthy a b : truthy a = true -> or_else a b = a.
Proof. unfold or_else. now intros ->. Qed.

(** The dialog after a load that resolved. *)
Lemma load_resolved_dialog config d :
  snd (fst (load_settle (Resolved config) d)) =
  {| open := open d;
     provider := provider_or (Stored.provider config) openai;
     apiKey := string_or (Stored.apiKey config) (lit "");
     claudeApiKey := string_or (Stored.claudeApiKey config) (lit "");
     extractionModel :=
       string_or (Stored.extractionModel config) (lit "gpt-4o");
     solutionModel := string_or (Stored.solutionModel config) (lit "gpt-4o");
     debuggingModel :=
       string_or (Stored.debuggingModel config) (lit "gpt-4o");
     isLoading := false;
     validationError := validationError d |}.
Proof. reflexivity. Qed.

Lemma load_resolved_models config d :
  models_chosen (snd (fst (load_settle (Resolved config) d))).
Proof.
  rewrite load_resolved_dialog. unfold models_chosen.
  cbn [extractionModel solutionModel debuggingModel].
  repeat split; now apply truthy_string_or.
Qed.

Lemma load_stored_of c d :
  truthy (Config.extractionModel c) = true ->
  truthy (Config.solutionModel c) = true ->
  truthy (Config.debuggingModel c) = true ->
  edit_buffer (snd (fst (load_settle (Resolved (stored_of c)) d))) = c.
Proof.
  intros H1 H2 H3. rewrite load_resolved_dialog.
  unfold edit_buffer, stored_of. destruct c; cbn in *.
  now rewrite !or_else_nil, !or_else_truthy.
Qed.

(** Every event keeps the model fields non-empty. *)
Lemma step_models_chosen s e s' :
  step s e = Some s' ->
  models_chosen (dialog s) -> models_chosen (dialog s').
Proof.
  destruct e; cbn [step].
  - intros [= <-]. unfold after_render, sync_external, perform.
    destruct (externalOpen p) as [b|];
      [destruct (differs b (externalOpen (props s)))|];
      cbn; destruct (open (dialog s)); try destruct b; cbn; auto.
  - destruct (open (dialog s)); [|discriminate]. intros [= <-].
    unfold after_render, perform, handleOpenChange, bind, set, emit, ret.
    destruct (onOpenChange (props s) && differs false (externalOpen (props s)));
      cbn; auto.
  - destruct (open (dialog s)); [|discriminate]. intros [= <-]. cbn. auto.
  - destruct (_ && _); [|discriminate]. intros [= <-]. cbn. auto.
  - destruct (_ && _); [|discriminate]. intros [= <-]. cbn. auto.
  - destruct (_ && _); [|discriminate]. intros [= <-].
    unfold models_chosen. destruct c, m; cbn; tauto.
  - destruct (_ && _); [|discriminate]. unfold perform.
    destruct (handleSave_submit (dialog s)) as [[[c|] d'] es] eqn:Hs.
    + apply handleSave_submit_Some in Hs as (_ & -> & _).
      intros [= <-]. cbn. auto.
    + apply handleSave_submit_None in Hs as (_ & msg & -> & _).
      intros [= <-]. cbn. auto.
  - destruct (pendingLoads s); [discriminate|]. intros [= <-].
    destruct o as [config|]; [|cbn; auto].
    intros _. apply (load_resolved_models config (dialog s)).
  - destruct (nth_error (pendingSaves s) n) as [p|]; [|discriminate].
    intros [= <-]. unfold after_render, perform.
    destruct o as [[|]|];
      unfold handleSave_settle, handleOpenChange, bind, set, emit, ret;
      try destruct (onOpenChange p && differs false (externalOpen p));
      cbn; destruct (open (dialog s)); cbn; auto.
Qed.

Lemma mount_models_chosen p : models_chosen (dialog (mount p)).
Proof.
  unfold mount, after_render, initial_dialog.
  destruct (externalOpen p) as [[|]|]; cbn; repeat split.
Qed.

Lemma run_models_chosen es :
  forall s s',
    run s es = Some s' -> models_chosen (dialog s) -> models_chosen (dialog s').
Proof.
  induction es as [|e es IH]; intros s s'; cbn [run].
  - now intros [= <-].
  - destruct (step s e) as [s1|] eqn:Hstep; [|discriminate].
    intros Hrun H. apply (IH _ _ Hrun). eapply step_models_chosen; eauto.
Qed.

End LoadMore.

(** X11: a load that resolves replaces the whole edit buffer: the buffer
    afterwards is fixed by the stored configuration alone, whatever was
    typed before.  No model field is left empty, and the busy flag is
    cleared. *)
Theorem load_overwrites_edit_buffer
        (config : Stored.StoredConfig) (d1 d2 : Dialog) :
  edit_buffer (snd (fst (load_settle (Resolved config) d1))) =
  edit_buffer (snd (fst (load_settle (Resolved config) d2))) /\
  models_chosen (snd (fst (load_settle (Resolved config) d1))) /\
  isLoading (snd (fst (load_settle (Resolved config) d1))) = false /\
  snd (load_settle (Resolved config) d1) = [].
Proof.
  split; [reflexivity|]. split; [apply load_resolved_models|].
  split; reflexivity.
Qed.

(** X12: in every state the lifecycle can reach, none of the three model
    fields of the edit buffer is the empty string. *)
Theorem models_never_empty (s : System) :
  Reachable s -> models_chosen (dialog s).
Proof.
  intros (p & es & Hrun).
  apply (run_models_chosen _ _ Hrun), mount_models_chosen.
Qed.

Lemma models_never_empty_witness :
  models_chosen (dialog (state_after parent_open save_reopen_save)).
Proof.
  apply (@models_never_empty (state_after parent_open save_reopen_save)).
  exists parent_open, save_reopen_save. vm_compute. reflexivity.
Defined.

(** X13: loading back what was saved gives the same edit buffer: when the
    bridge hands back the configuration a reachable dialog holds, with
    every field present, the load leaves the buffer equal to it, from
    whatever buffer it starts. *)
Theorem load_after_save_round_trip (s : System) (d : Dialog) :
  Reachable s ->
  edit_buffer
    (snd (fst (load_settle (Resolved (stored_of (edit_buffer (dialog s)))) d)))
  = edit_buffer (dialog s).
Proof.
  intros (p & es & Hrun).
  assert (H : models_chosen (dialog s))
    by apply (run_models_chosen _ _ Hrun), mount_models_chosen.
  destruct H as (H1 & H2 & H3). now apply load_stored_of.
Qed.

Lemma load_after_save_round_trip_witness :
  edit_buffer
    (snd (fst (load_settle
                 (Resolved (stored_of
                    (edit_buffer (dialog (state_after parent_open load_save)))))
                 (editing empty_claude))))
  = edit_buffer (dialog (state_after parent_open load_save)).
Proof.
  apply (@load_after_save_round_trip
           (state_after parent_open load_save) (editing empty_claude)).
  exists parent_open, load_save. vm_compute. reflexivity.
Defined.

(** ** More on the lifecycle *)

Section LifecycleMore.

Lemma success_toasts_app es1 es2 :
  success_toasts (es1 ++ es2) = success_toasts es1 + success_toasts es2.
Proof.
  induction es1 as [|e es1 IH]; [reflexivity|].
  cbn [app]. unfold success_toasts at 1 3; fold success_toasts.
  rewrite IH.
  destruct e as [t m v| | | | |]; try reflexivity.
  destruct t as [|a0 t0]; try reflexivity.
  repeat match goal with
         | |- context [match ?x with _ => _ end] =>
             is_var x; destruct x; try reflexivity
         end.
Qed.

Lemma remove_nth_length {A} (l : list A) :
  forall n x, nth_error l n = Some x -> S (length (remove_nth n l)) = length l.
Proof.
  induction l as [|a l IH]; intros [|n] x; cbn; try discriminate.
  - reflexivity.
  - intros H. now rewrite (IH _ _ H).
Qed.

End LifecycleMore.

Section Accounting.

Ltac count :=
  unfold saves_in_flight; cbn;
  rewrite ?app_nil_r, ?success_toasts_app, ?updateConfig_calls_app,
    ?length_app;
  cbn; try lia.

(** Each event keeps the balance between the calls of [updateConfig], the
    saves still outstanding and the successes announced. *)
Lemma step_accounting s e s' :
  step s e = Some s' ->
  success_toasts (log s') + saves_in_flight s'
  + length (updateConfig_calls (log s))
  <= success_toasts (log s) + saves_in_flight s
     + length (updateConfig_calls (log s')).
Proof.
  destruct e; cbn [step].
  - intros [= <-]. unfold after_render, sync_external, perform.
    destruct (externalOpen p) as [b|];
      [destruct (differs b (externalOpen (props s)))|];
      cbn; destruct (open (dialog s)); try destruct b; count.
  - destruct (open (dialog s)) eqn:Ho; [|discriminate]. intros [= <-].
    unfold after_render, perform, handleOpenChange, bind, set, emit, ret.
    destruct (onOpenChange (props s) && differs false (externalOpen (props s)));
      count.
  - destruct (open (dialog s)); [|discriminate]. intros [= <-]. count.
  - destruct (_ && _); [|discriminate]. intros [= <-]. count.
  - destruct (_ && _); [|discriminate]. intros [= <-]. count.
  - destruct (_ && _); [|discriminate]. intros [= <-]. count.
  - destruct (_ && _); [|discriminate]. unfold perform.
    destruct (handleSave_submit (dialog s)) as [[[c|] d'] es] eqn:Hs.
    + apply handleSave_submit_Some in Hs as (_ & _ & -> & _).
      intros [= <-]. count.
    + apply handleSave_submit_None in Hs as (-> & _).
      intros [= <-]. count.
  - destruct (pendingLoads s); [discriminate|]. intros [= <-].
    destruct o as [config|]; count.
  - destruct (nth_error (pendingSaves s) n) as [p|] eqn:Hn; [|discriminate].
    intros [= <-]. apply remove_nth_length in Hn.
    unfold after_render, perform.
    destruct o as [[|]|];
      unfold handleSave_settle, handleOpenChange, bind, set, emit, ret;
      try destruct (onOpenChange p && differs false (externalOpen p));
      cbn; destruct (open (dialog s)); count.
Qed.

Lemma run_accounting es :
  forall s s',
    run s es = Some s' ->
    success_toasts (log s) + saves_in_flight s
    <= length (updateConfig_calls (log s)) ->
    success_toasts (log s') + saves_in_flight s'
    <= length (updateConfig_calls (log s')).
Proof.
  induction es as [|e es IH]; intros s s'; cbn [run].
  - now intros [= <-].
  - destruct (step s e) as [s1|] eqn:Hstep; [|discriminate].
    intros Hrun H. apply (IH _ _ Hrun).
    pose proof (step_accounting _ _ Hstep). lia.
Qed.

End Accounting.

(** X14: in every state the lifecycle can reach, the successes announced
    and the saves still outstanding together never exceed the calls of
    [updateConfig] made: no success is shown without a submission behind
    it. *)
Theorem successes_backed_by_submissions (s : System) :
  Reachable s ->
  success_toasts (log s) + saves_in_flight s
  <= length (updateConfig_calls (log s)).
Proof.
  intros (p & es & Hrun). apply (run_accounting _ _ Hrun).
  unfold mount, after_render, initial_dialog, saves_in_flight.
  destruct (externalOpen p) as [[|]|]; cbn; lia.
Qed.

Lemma successes_backed_by_submissions_witness :
  success_toasts (log (state_after parent_open save_reopen_save))
  + saves_in_flight (state_after parent_open save_reopen_save)
  <= length (updateConfig_calls
               (log (state_after parent_open save_reopen_save))).
Proof.
  apply (@successes_backed_by_submissions
           (state_after parent_open save_reopen_save)).
  exists parent_open, save_reopen_save. vm_compute. reflexivity.
Defined.

(** X15: only the user's edits and a load that resolves write the edit
    buffer.  A change of props, Cancel, a click on Save whether accepted
    or refused, a failed load, and a save settling in any way leave
    provider, keys and models as they were. *)
Theorem buffer_written_only_by_edit_or_load (s s' : System) (e : event) :
  step s e = Some s' ->
  writes_buffer e = false ->
  edit_buffer (dialog s') = edit_buffer (dialog s).
Proof.
  destruct e; cbn [step writes_buffer]; try discriminate.
  - intros [= <-] _. unfold after_render, sync_external, perform.
    destruct (externalOpen p) as [b|];
      [destruct (differs b (externalOpen (props s)))|];
      cbn; destruct (open (dialog s)); try destruct b; reflexivity.
  - destruct (open (dialog s)) eqn:Ho; [|discriminate]. intros [= <-] _.
    unfold after_render, perform, handleOpenChange, bind, set, emit, ret.
    destruct (onOpenChange (props s) && differs false (externalOpen (props s)));
      reflexivity.
  - destruct (_ && _); [|discriminate]. unfold perform.
    destruct (handleSave_submit (dialog s)) as [[[c|] d'] es] eqn:Hs.
    + apply handleSave_submit_Some in Hs as (_ & -> & _).
      now intros [= <-] _.
    + apply handleSave_submit_None in Hs as (_ & msg & -> & _).
      now intros [= <-] _.
  - destruct (pendingLoads s); [discriminate|].
    destruct o as [config|]; [discriminate|]. now intros [= <-] _.
  - destruct (nth_error (pendingSaves s) n) as [p|]; [|discriminate].
    intros [= <-] _. unfold after_render, perform.
    destruct o as [[|]|];
      unfold handleSave_settle, handleOpenChange, bind, set, emit, ret;
      try destruct (onOpenChange p && differs false (externalOpen p));
      cbn; destruct (open (dialog s)); reflexivity.
Qed.

Lemma buffer_written_only_by_edit_or_load_witness :
  edit_buffer (dialog (state_after parent_open save_reopen_save)) =
  edit_buffer
    (dialog (state_after parent_open
               [GetConfigSettles (Resolved stored_openai); ClickSave;
                ClickCancel; PropsChange parent_closed;
                PropsChange parent_open;
                GetConfigSettles (Resolved stored_openai)])).
Proof.
  apply (@buffer_written_only_by_edit_or_load
           (state_after parent_open
              [GetConfigSettles (Resolved stored_openai); ClickSave;
               ClickCancel; PropsChange parent_closed;
               PropsChange parent_open;
               GetConfigSettles (Resolved stored_openai)])
           (state_after parent_open save_reopen_save) ClickSave).
  - vm_compute. reflexivity.
  - reflexivity.
Defined.

(** X16: the dialog follows [externalOpen] only when that prop changes.
    After Cancel, a render in which the parent passes the same
    [externalOpen] as before leaves the dialog closed and starts no
    load. *)
Theorem cancelled_dialog_stays_closed (s : System) (p : Props) :
  open (dialog s) = true ->
  externalOpen p = externalOpen (props s) ->
  exists s1 s2,
    step s ClickCancel = Some s1 /\
    step s1 (PropsChange p) = Some s2 /\
    open (dialog s2) = false /\
    pendingLoads s2 = pendingLoads s /\
    edit_buffer (dialog s2) = edit_buffer (dialog s) /\
    updateConfig_calls (log s2) = updateConfig_calls (log s).
Proof.
  intros Ho Hp. cbn [step]. rewrite Ho.
  eexists. eexists. split; [reflexivity|]. split; [reflexivity|].
  unfold after_render, sync_external, perform, handleOpenChange,
    bind, set, emit, ret.
  destruct (onOpenChange (props s) && differs false (externalOpen (props s)));
    cbn; rewrite Hp;
    destruct (externalOpen (props s)) as [[|]|]; cbn;
    rewrite ?app_nil_r, ?updateConfig_calls_app, ?app_nil_r; auto.
Qed.

Lemma cancelled_dialog_stays_closed_witness :
  exists s1 s2,
    step (state_after parent_silent load_save) ClickCancel = Some s1 /\
    step s1 (PropsChange parent_silent) = Some s2 /\
    open (dialog s2) = false /\
    pendingLoads s2 = pendingLoads (state_after parent_silent load_save) /\
    edit_buffer (dialog s2) =
      edit_buffer (dialog (state_after parent_silent load_save)) /\
    updateConfig_calls (log s2) =
      updateConfig_calls (log (state_after parent_silent load_save)).
Proof.
  apply (@cancelled_dialog_stays_closed
           (state_after parent_silent load_save) parent_silent);
    reflexivity.
Defined.

(** X17: when [externalOpen] turns true on a closed dialog, the dialog
    opens with the edit buffer it had, a validation message left from
    before is cleared, the busy flag is set and exactly one [getConfig] is
    called. *)
Theorem reopening_starts_one_load (s : System) (p : Props) :
  open (dialog s) = false ->
  externalOpen p = Some true ->
  externalOpen (props s) <> Some true ->
  exists s',
    step s (PropsChange p) = Some s' /\
    open (dialog s') = true /\
    validationError (dialog s') = ""%string /\
    isLoading (dialog s') = true /\
    edit_buffer (dialog s') = edit_buffer (dialog s) /\
    pendingLoads s' = S (pendingLoads s) /\
    log s' = log s ++ [GetConfig].
Proof.
  intros Ho Hp Hold. cbn [step]. eexists. split; [reflexivity|].
  unfold after_render, sync_external, perform. rewrite Hp, Ho.
  destruct (externalOpen (props s)) as [[|]|]; [congruence| |];
    cbn; rewrite app_nil_r; repeat split.
Qed.

Lemma reopening_starts_one_load_witness :
  exists s',
    step (state_after parent_open
            [GetConfigSettles (Resolved stored_openai); ClickCancel;
             PropsChange parent_closed])
         (PropsChange parent_open) = Some s' /\
    open (dialog s') = true /\
    validationError (dialog s') = ""%string /\
    isLoading (dialog s') = true.
Proof.
  destruct (@reopening_starts_one_load
              (state_after parent_open
                 [GetConfigSettles (Resolved stored_openai); ClickCancel;
                  PropsChange parent_closed])
              parent_open) as (s' & H1 & H2 & H3 & H4 & _).
  - reflexivity.
  - reflexivity.
  - vm_compute. discriminate.
  - exists s'. auto.
Defined.

Section Busy.

(** Each event keeps: a set busy flag has a promise behind it. *)
Lemma step_busy s e s' :
  step s e = Some s' ->
  (isLoading (dialog s) = true ->
   0 < pendingLoads s + saves_in_flight s) ->
  isLoading (dialog s') = true ->
  0 < pendingLoads s' + saves_in_flight s'.
Proof.
  unfold saves_in_flight. destruct e; cbn [step].
  - intros [= <-]. unfold after_render, sync_external, perform.
    destruct (externalOpen p) as [b|];
      [destruct (differs b (externalOpen (props s)))|];
      cbn; destruct (open (dialog s)); try destruct b; cbn; auto; lia.
  - destruct (open (dialog s)) eqn:Ho; [|discriminate]. intros [= <-].
    unfold after_render, perform, handleOpenChange, bind, set, emit, ret.
    destruct (onOpenChange (props s) && differs false (externalOpen (props s)));
      cbn; auto.
  - destruct (open (dialog s)); [|discriminate]. intros [= <-]. cbn. auto.
  - destruct (_ && _); [|discriminate]. intros [= <-]. cbn. auto.
  - destruct (_ && _); [|discriminate]. intros [= <-]. cbn. auto.
  - destruct (_ && _); [|discriminate]. intros [= <-].
    destruct c; cbn; auto.
  - destruct (_ && _); [|discriminate]. unfold perform.
    destruct (handleSave_submit (dialog s)) as [[[c|] d'] es] eqn:Hs.
    + intros [= <-]. cbn. rewrite length_app. cbn. lia.
    + apply handleSave_submit_None in Hs as (_ & msg & -> & _).
      intros [= <-]. cbn. auto.
  - destruct (pendingLoads s); [discriminate|]. intros [= <-].
    destruct o as [config|]; cbn; discriminate.
  - destruct (nth_error (pendingSaves s) n) as [p|]; [|discriminate].
    intros [= <-]. unfold after_render, perform.
    destruct o as [[|]|];
      unfold handleSave_settle, handleOpenChange, bind, set, emit, ret;
      try destruct (onOpenChange p && differs false (externalOpen p));
      cbn; destruct (open (dialog s)); cbn; discriminate.
Qed.

Lemma run_busy es :
  forall s s',
    run s es = Some s' ->
    (isLoading (dialog s) = true ->
     0 < pendingLoads s + saves_in_flight s) ->
    isLoading (dialog s') = true ->
    0 < pendingLoads s' + saves_in_flight s'.
Proof.
  induction es as [|e es IH]; intros s s'; cbn [run].
  - now intros [= <-].
  - destruct (step s e) as [s1|] eqn:Hstep; [|discriminate].
    intros Hrun H. apply (IH _ _ Hrun). now apply (step_busy _ _ Hstep).
Qed.

End Busy.

(** X18: the busy flag is never left set with nothing outstanding: in
    every state the lifecycle can reach, when no load and no save is
    pending the flag is clear, so an open dialog has its Save button
    enabled. *)
Theorem idle_dialog_not_busy (s : System) :
  Reachable s ->
  pendingLoads s = 0 -> saves_in_flight s = 0 ->
  isLoading (dialog s) = false.
Proof.
  intros (p & es & Hrun) Hl Hs.
  destruct (isLoading (dialog s)) eqn:Hb; [|reflexivity].
  assert (H : 0 < pendingLoads s + saves_in_flight s).
  { apply (run_busy _ _ Hrun); [|exact Hb].
    unfold mount, after_render, initial_dialog, saves_in_flight.
    destruct (externalOpen p) as [[|]|]; cbn; intros; (lia || discriminate). }
  lia.
Qed.

Lemma idle_dialog_not_busy_witness :
  isLoading
    (dialog (state_after parent_open
               [GetConfigSettles (Resolved stored_openai); ClickSave;
                UpdateConfigSettles 0 Rejected])) = false.
Proof.
  apply (@idle_dialog_not_busy
           (state_after parent_open
              [GetConfigSettles (Resolved stored_openai); ClickSave;
               UpdateConfigSettles 0 Rejected])).
  - exists parent_open,
      [GetConfigSettles (Resolved stored_openai); ClickSave;
       UpdateConfigSettles 0 Rejected].
    vm_compute. reflexivity.
  - reflexivity.
  - reflexivity.
Defined.
